(** * phx transport: the reconnecting websocket session

    A shallow embedding of [constants.go] and [websocket.go].  Every method of
    [Websocket] becomes a computation over the record of its fields; the calls
    it makes to its collaborators (the dialer, the endpoint, the handler, the
    clock) and the writes it makes to the shared flags are logged, in program
    order, in a trace of events.  Results that come from a collaborator (did
    the dial succeed, what did the read return) are arguments of the
    computation. *)

From Stdlib Require Import ZArith List Bool String Ascii Lia Arith.
From Equations Require Import Equations.
Import ListNotations.

Local Open Scope Z_scope.

(** ** Machine integers and durations *)

(** Go's [int] and [int64] on a 64-bit platform: a signed 64-bit value, with
    wrap-around on overflow. *)
Definition wrap64 (z : Z) : Z := (z + 2 ^ 63) mod 2 ^ 64 - 2 ^ 63.

Definition int64_range (z : Z) : Prop := - 2 ^ 63 <= z < 2 ^ 63.

(** [time.Duration] is an [int64] count of nanoseconds. *)
Definition Duration := Z.

Definition Nanosecond : Duration := 1.
Definition Microsecond : Duration := 1000 * Nanosecond.
Definition Millisecond : Duration := 1000 * Microsecond.
Definition Second : Duration := 1000 * Millisecond.

Definition duration_mul (a b : Duration) : Duration := wrap64 (a * b).

(** ** constants.go *)

Definition defaultConnectTimeout : Duration := duration_mul 10 Second.
Definition defaultHeartbeatInterval : Duration := duration_mul 30 Second.
Definition busyWait : Duration := duration_mul 100 Millisecond.
Definition messageQueueLength : nat := 100.

Definition schedule : list Duration := [10; 50; 100; 150; 200; 250; 500; 1000; 2000].

Definition defaultReconnectAfterFunc (tries : Z) : Duration :=
  if (0 <=? tries) && (tries <? Z.of_nat (List.length schedule))
  then duration_mul (nth (Z.to_nat tries) schedule 0) Millisecond
  else duration_mul 5000 Millisecond.

(** ** Go's [path] package, as far as [startup] uses it

    [path.Join] and [path.Clean] belong to the Go standard library, not to this
    repository; they are transcribed here from the library's algorithm because
    [startup] computes the dialled path with them.  A Go string is a sequence
    of bytes: [list ascii] inside, [string] at the interface. *)

Definition slash : ascii := "/"%char.
Definition dot : ascii := "."%char.

Definition is_slash (c : ascii) : bool := Ascii.eqb c slash.
Definition is_dot (c : ascii) : bool := Ascii.eqb c dot.

(** The four cases of the [switch] in [Clean]'s loop, decided on [path[r]] and
    a lookahead of at most two bytes; [tl] is [path[r+1:]]. *)
Inductive Element := EmptyElem | DotElem | DotDotElem | RealElem.

Definition at_end_or_slash (l : list ascii) : bool :=
  match l with
  | [] => true
  | c :: _ => is_slash c
  end.

Definition classify (c : ascii) (tl : list ascii) : Element :=
  if is_slash c then EmptyElem
  else if is_dot c && at_end_or_slash tl then DotElem
  else if is_dot c
          && match tl with
             | c1 :: tl1 => is_dot c1 && at_end_or_slash tl1
             | [] => false
             end
       then DotDotElem
  else RealElem.

(** [out.w--; for out.w > dotdot && out.index(out.w) != '/' { out.w-- }]:
    the new write index, counted down from [w]. *)
Fixpoint backtrack_index (out : list ascii) (dotdot w : nat) : nat :=
  match w with
  | O => O
  | S w' =>
      if (dotdot <? w)%nat && negb (is_slash (nth w out slash))
      then backtrack_index out dotdot w'
      else w
  end.

Definition backtrack (out : list ascii) (dotdot : nat) : list ascii :=
  firstn (backtrack_index out dotdot (List.length out - 1)) out.

(** The bytes of the element that starts at [path[r]], and what follows it. *)
Fixpoint element_bytes (l : list ascii) : list ascii :=
  match l with
  | [] => []
  | c :: tl => if is_slash c then [] else c :: element_bytes tl
  end.

Fixpoint after_element (l : list ascii) : list ascii :=
  match l with
  | [] => []
  | c :: tl => if is_slash c then l else after_element tl
  end.

(** [add slash if needed] of the real-element case. *)
Definition needs_slash (rooted : bool) (out : list ascii) : bool :=
  (rooted && negb (List.length out =? 1)%nat)
  || (negb rooted && negb (List.length out =? 0)%nat).

Definition with_slash (rooted : bool) (out : list ascii) : list ascii :=
  if needs_slash rooted out then out ++ [slash] else out.

(** The [for r < n] loop of [Clean]: [out] is the buffer written so far
    ([out.w] is its length) and [rest] is [path[r:]].  In the real-element
    case the first byte is known not to be a slash, so it is copied and the
    copy goes on to the next slash. *)
Equations? clean_loop (rooted : bool) (dotdot : nat) (out rest : list ascii)
  : list ascii by wf (List.length rest) lt :=
  clean_loop rooted dotdot out [] := out;
  clean_loop rooted dotdot out (c :: tl) with classify c tl => {
    | EmptyElem := clean_loop rooted dotdot out tl;
    | DotElem := clean_loop rooted dotdot out tl;
    | DotDotElem :=
        if (dotdot <? List.length out)%nat
        then clean_loop rooted dotdot (backtrack out dotdot) (List.tl tl)
        else if negb rooted
        then let out' := (if (0 <? List.length out)%nat then out ++ [slash] else out)
                           ++ [dot; dot] in
             clean_loop rooted (List.length out') out' (List.tl tl)
        else clean_loop rooted dotdot out (List.tl tl);
    | RealElem :=
        clean_loop rooted dotdot
          (with_slash rooted out ++ c :: element_bytes tl) (after_element tl) }.
Proof.
  all: try (destruct tl; simpl; lia).
  clear. simpl. apply Nat.lt_succ_r.
  induction tl as [|c tl IH]; simpl; [lia|].
  destruct (is_slash c); simpl; lia.
Qed.

(** [rooted := path[0] == '/'], and the buffer the loop leaves when it is
    started as [Clean] starts it: on a rooted path with the slash written and
    [r] and [dotdot] at 1. *)
Definition is_rooted (path : list ascii) : bool :=
  match path with
  | c :: _ => is_slash c
  | [] => false
  end.

Definition clean_out (path : list ascii) : list ascii :=
  let rooted := is_rooted path in
  clean_loop rooted (if rooted then 1%nat else 0%nat)
             (if rooted then [slash] else [])
             (if rooted then List.tl path else path).

Definition Clean_bytes (path : list ascii) : list ascii :=
  match path with
  | [] => [dot]
  | _ =>
      match clean_out path with
      | [] => [dot]
      | out => out
      end
  end.

Definition Clean (path : string) : string :=
  string_of_list_ascii (Clean_bytes (list_ascii_of_string path)).

(** [Join]'s buffer: the non-empty elements, separated by slashes. *)
Fixpoint join_buf (buf : list ascii) (elem : list string) : list ascii :=
  match elem with
  | [] => buf
  | e :: rest =>
      let eb := list_ascii_of_string e in
      match buf, eb with
      | [], [] => join_buf buf rest
      | [], _ => join_buf eb rest
      | _, _ => join_buf (buf ++ slash :: eb) rest
      end
  end.

Definition Join (elem : list string) : string :=
  let size := fold_left (fun n e => (n + String.length e)%nat) elem 0%nat in
  if (size =? 0)%nat then EmptyString
  else string_of_list_ascii (Clean_bytes (join_buf [] elem)).

Definition websocket_bytes : list ascii := list_ascii_of_string "websocket".

(** ** Collaborators' data *)

(** An endpoint handle ([*websocket.Conn]); [None] is the nil pointer. *)
Definition Conn := nat.

(** Go's [error] values that the transport can meet: a close frame received
    from the peer ([*websocket.CloseError]), an error made with [errors.New],
    and any other failure reported by the network or the JSON codec. *)
Inductive error :=
| CloseError (Code : Z) (Text : string)
| errorString (s : string)
| transportError (s : string).

Definition CloseNormalClosure : Z := 1000.
Definition CloseNoStatusReceived : Z := 1005.
Definition CloseMessage : Z := 8.

(** [websocket.IsCloseError(err, codes...)]. *)
Definition IsCloseError (err : error) (codes : list Z) : bool :=
  match err with
  | CloseError code _ => existsb (Z.eqb code) codes
  | _ => false
  end.

(** [websocket.FormatCloseMessage]: the close code in two big-endian bytes,
    then the text. *)
Definition FormatCloseMessage (closeCode : Z) (text : string) : list Z :=
  if closeCode =? CloseNoStatusReceived then []
  else [Z.shiftr closeCode 8 mod 256; closeCode mod 256]
         ++ map (fun c => Z.of_nat (nat_of_ascii c)) (list_ascii_of_string text).

(** ** Channels

    A channel is nil (never made), open with a capacity and the values it
    holds, or closed (the values still buffered can be received).  On an
    unbuffered channel (capacity 0) a send is a rendezvous with the receiving
    [select] of the connection manager: the model keeps the offered value in
    the channel until that [select] takes it and lets the sender go on, so a
    method that sends is described for the run in which the manager receives. *)
Inductive Chan (A : Type) :=
| ChNil
| ChOpen (cap : nat) (buf : list A)
| ChClosed (buf : list A).
Arguments ChNil {A}.
Arguments ChOpen {A} cap buf.
Arguments ChClosed {A} buf.

Inductive PanicMsg :=
| SendOnClosedChannel
| CloseOfNilChannel
| CloseOfClosedChannel
| NilPointerDereference.

Inductive BlockReason :=
| NilChannel        (* an operation on a nil channel blocks forever *)
| ChannelFull       (* a send waits for room in the buffer *)
| NotReady.         (* the case taken in a select cannot proceed yet *)

Definition make_chan {A : Type} (cap : nat) : Chan A := ChOpen cap [].

Definition chan_send {A : Type} (c : Chan A) (v : A) : Chan A + (PanicMsg + BlockReason) :=
  match c with
  | ChNil => inr (inr NilChannel)
  | ChClosed _ => inr (inl SendOnClosedChannel)
  | ChOpen cap buf =>
      if (cap =? 0)%nat || (List.length buf <? cap)%nat
      then inl (ChOpen cap (buf ++ [v]))
      else inr (inr ChannelFull)
  end.

Definition chan_close {A : Type} (c : Chan A) : Chan A + PanicMsg :=
  match c with
  | ChNil => inr CloseOfNilChannel
  | ChClosed _ => inr CloseOfClosedChannel
  | ChOpen _ buf => inl (ChClosed buf)
  end.

(** A receive: [Some (v, c')] when a value (or, on a closed and drained
    channel, the zero value) is delivered, [None] when the receiver would
    wait. *)
Definition chan_recv {A : Type} (zero : A) (c : Chan A) : option (A * Chan A) :=
  match c with
  | ChNil => None
  | ChOpen _ [] => None
  | ChOpen cap (v :: buf) => Some (v, ChOpen cap buf)
  | ChClosed [] => Some (zero, ChClosed [])
  | ChClosed (v :: buf) => Some (v, ChClosed buf)
  end.

Definition chan_is_closed {A : Type} (c : Chan A) : bool :=
  match c with
  | ChClosed _ => true
  | _ => false
  end.

Inductive Flag := Started | Closing | Reconnecting.
Inductive Goroutine := ConnectionManager | WriterLoop | ReaderLoop.
Inductive LoopCtl := Continue | Return.

(** ** The session *)

Section Session.

(** [Message] is declared elsewhere in the package and [http.Header] in the
    standard library; the transport stores and forwards their values and
    never looks inside.  Of [url.URL] it touches one field, [Path]; the
    other fields travel in [url_rest], and [URL_String] is the library's
    [String] method. *)
Context {Message Header URLRest : Type}.

Record URL := mkURL { Path : string; url_rest : URLRest }.

Variable URL_String : URL -> string.

(** The zero value of [Message], which a receive on a closed and drained
    channel delivers. *)
Variable zeroMessage : Message.

(** The fields of [Websocket].  The dialer and the handler are the fixed
    collaborators of the session and the mutex has no value of its own:
    each getter and setter below is one atomic access.  A nil
    [http.Header] is [None]. *)
Record Websocket := mkWebsocket {
  conn : option Conn;
  endPoint : string;
  requestHeader : option Header;
  done : Chan unit;
  close : Chan bool;
  reconnect : Chan bool;
  send : Chan Message;
  connectionTries : Z;
  started : bool;
  closing : bool;
  reconnecting : bool
}.

(** [NewWebsocket]: every field at its zero value. *)
Definition NewWebsocket : Websocket :=
  {| conn := None; endPoint := EmptyString; requestHeader := None;
     done := ChNil; close := ChNil; reconnect := ChNil; send := ChNil;
     connectionTries := 0; started := false; closing := false;
     reconnecting := false |}.

Definition with_conn (c : option Conn) (w : Websocket) : Websocket :=
  mkWebsocket c (endPoint w) (requestHeader w) (done w) (close w) (reconnect w)
              (send w) (connectionTries w) (started w) (closing w) (reconnecting w).
Definition with_endPoint (e : string) (w : Websocket) : Websocket :=
  mkWebsocket (conn w) e (requestHeader w) (done w) (close w) (reconnect w)
              (send w) (connectionTries w) (started w) (closing w) (reconnecting w).
Definition with_requestHeader (h : option Header) (w : Websocket) : Websocket :=
  mkWebsocket (conn w) (endPoint w) h (done w) (close w) (reconnect w)
              (send w) (connectionTries w) (started w) (closing w) (reconnecting w).
Definition with_done (c : Chan unit) (w : Websocket) : Websocket :=
  mkWebsocket (conn w) (endPoint w) (requestHeader w) c (close w) (reconnect w)
              (send w) (connectionTries w) (started w) (closing w) (reconnecting w).
Definition with_close (c : Chan bool) (w : Websocket) : Websocket :=
  mkWebsocket (conn w) (endPoint w) (requestHeader w) (done w) c (reconnect w)
              (send w) (connectionTries w) (started w) (closing w) (reconnecting w).
Definition with_reconnect (c : Chan bool) (w : Websocket) : Websocket :=
  mkWebsocket (conn w) (endPoint w) (requestHeader w) (done w) (close w) c
              (send w) (connectionTries w) (started w) (closing w) (reconnecting w).
Definition with_send (c : Chan Message) (w : Websocket) : Websocket :=
  mkWebsocket (conn w) (endPoint w) (requestHeader w) (done w) (close w) (reconnect w)
              c (connectionTries w) (started w) (closing w) (reconnecting w).
Definition with_connectionTries (n : Z) (w : Websocket) : Websocket :=
  mkWebsocket (conn w) (endPoint w) (requestHeader w) (done w) (close w) (reconnect w)
              (send w) n (started w) (closing w) (reconnecting w).
Definition with_started (b : bool) (w : Websocket) : Websocket :=
  mkWebsocket (conn w) (endPoint w) (requestHeader w) (done w) (close w) (reconnect w)
              (send w) (connectionTries w) b (closing w) (reconnecting w).
Definition with_closing (b : bool) (w : Websocket) : Websocket :=
  mkWebsocket (conn w) (endPoint w) (requestHeader w) (done w) (close w) (reconnect w)
              (send w) (connectionTries w) (started w) b (reconnecting w).
Definition with_reconnecting (b : bool) (w : Websocket) : Websocket :=
  mkWebsocket (conn w) (endPoint w) (requestHeader w) (done w) (close w) (reconnect w)
              (send w) (connectionTries w) (started w) (closing w) b.

(** *** Events

    What a method does that another goroutine or a collaborator can see, in
    program order: calls to the clock, the dialer, the endpoint and the
    handler, goroutines launched, writes to the lock-guarded fields, and
    sends on and closes of the signal channels and the queue. *)
Inductive ChanName := DoneCh | CloseCh | ReconnectCh | SendCh.

Inductive Event :=
| EvPrintln (s : string)
| EvSleep (d : Duration)
| EvGo (g : Goroutine)
| EvSetFlag (f : Flag) (b : bool)
| EvSetConn (c : option Conn)
| EvChanSend (ch : ChanName)
| EvChanClose (ch : ChanName)
| EvDial (urlStr : string) (hdr : option Header)
| EvWriteMessage (c : Conn) (messageType : Z) (data : list Z)
| EvWriteJSON (c : Conn) (msg : Message)
| EvReadJSON (c : Conn)
| EvConnClose (c : Conn)
| EvOnConnOpen
| EvOnConnClose
| EvOnConnError (e : error)
| EvOnWriteError (e : error)
| EvOnReadError (e : error)
| EvOnConnMessage (msg : Message)
| EvReconnectAfter (tries : Z).

(** *** Computations

    A method runs from a state of the fields and either returns a value, or
    panics, or parks on a channel; in each case it leaves a state and the
    events it got to. *)
Inductive Outcome (A : Type) :=
| Ret (a : A) (w : Websocket) (tr : list Event)
| Panics (p : PanicMsg) (w : Websocket) (tr : list Event)
| Blocks (b : BlockReason) (w : Websocket) (tr : list Event).
Arguments Ret {A} a w tr.
Arguments Panics {A} p w tr.
Arguments Blocks {A} b w tr.

Definition M (A : Type) : Type := Websocket -> Outcome A.

Definition ret {A : Type} (a : A) : M A := fun w => Ret a w [].

(** The events of a computation come after those of the one before it. *)
Definition prepend {A : Type} (tr : list Event) (o : Outcome A) : Outcome A :=
  match o with
  | Ret a w tr' => Ret a w (tr ++ tr')
  | Panics p w tr' => Panics p w (tr ++ tr')
  | Blocks r w tr' => Blocks r w (tr ++ tr')
  end.

Definition bind {A B : Type} (m : M A) (k : A -> M B) : M B :=
  fun w =>
    match m w with
    | Ret a w1 tr1 => prepend tr1 (k a w1)
    | Panics p w1 tr1 => Panics p w1 tr1
    | Blocks r w1 tr1 => Blocks r w1 tr1
    end.

Definition trace_of {A : Type} (o : Outcome A) : list Event :=
  match o with
  | Ret _ _ tr | Panics _ _ tr | Blocks _ _ tr => tr
  end.

Definition state_of {A : Type} (o : Outcome A) : Websocket :=
  match o with
  | Ret _ w _ | Panics _ w _ | Blocks _ w _ => w
  end.

Definition emit (e : Event) : M unit := fun w => Ret tt w [e].
Definition gets {A : Type} (f : Websocket -> A) : M A := fun w => Ret (f w) w [].
Definition modify (f : Websocket -> Websocket) : M unit := fun w => Ret tt (f w) [].
Definition panic {A : Type} (p : PanicMsg) : M A := fun w => Panics p w [].
Definition block {A : Type} (r : BlockReason) : M A := fun w => Blocks r w [].

Notation "x <- m ;; k" := (bind m (fun x => k))
  (at level 61, m at next level, right associativity).
Notation "m ;; k" := (bind m (fun _ => k))
  (at level 61, right associativity).

Definition sleep (d : Duration) : M unit := emit (EvSleep d).
Definition go (g : Goroutine) : M unit := emit (EvGo g).

(** [ch <- v] and [close(ch)] on the channel held in one field. *)
Definition send_on {A : Type} (name : ChanName) (get : Websocket -> Chan A)
           (set : Chan A -> Websocket -> Websocket) (v : A) : M unit :=
  fun w =>
    match chan_send (get w) v with
    | inl c => Ret tt (set c w) [EvChanSend name]
    | inr (inl p) => Panics p w []
    | inr (inr r) => Blocks r w []
    end.

Definition close_chan {A : Type} (name : ChanName) (get : Websocket -> Chan A)
           (set : Chan A -> Websocket -> Websocket) : M unit :=
  fun w =>
    match chan_close (get w) with
    | inl c => Ret tt (set c w) [EvChanClose name]
    | inr p => Panics p w []
    end.

(** [<-ch] as the case taken in a [select]. *)
Definition recv_from {A : Type} (zero : A) (get : Websocket -> Chan A)
           (set : Chan A -> Websocket -> Websocket) : M A :=
  fun w =>
    match chan_recv zero (get w) with
    | Some (v, c) => Ret v (set c w) []
    | None => Blocks NotReady w []
    end.

(** [select { case <-w.done: return; default: }]: has [done] fired? *)
Definition poll_done : M bool :=
  fun w =>
    match chan_recv tt (done w) with
    | Some (_, c) => Ret true (with_done c w) []
    | None => Ret false w []
    end.

(** *** The lock-guarded accessors (websocket.go, lines 283-368) *)

Definition setStarted (b : bool) : M unit :=
  modify (with_started b) ;; emit (EvSetFlag Started b).
Definition isStarted : M bool := gets started.

Definition setClosing (b : bool) : M unit :=
  modify (with_closing b) ;; emit (EvSetFlag Closing b).
Definition isClosing : M bool := gets closing.

Definition sendClose : M unit :=
  c <- gets closing ;;
  if c then ret tt
  else
    modify (with_closing true) ;; emit (EvSetFlag Closing true) ;;
    send_on CloseCh close with_close true.

Definition setReconnecting (b : bool) : M unit :=
  modify (with_reconnecting b) ;; emit (EvSetFlag Reconnecting b).
Definition isReconnecting : M bool := gets reconnecting.

Definition sendReconnect : M unit :=
  r <- gets reconnecting ;;
  c <- gets closing ;;
  if r || c then ret tt
  else
    modify (with_reconnecting true) ;; emit (EvSetFlag Reconnecting true) ;;
    send_on ReconnectCh reconnect with_reconnect true.

Definition setConn (c : option Conn) : M unit :=
  modify (with_conn c) ;; emit (EvSetConn c).

Definition conn_not_nil (w : Websocket) : bool :=
  match conn w with
  | Some _ => true
  | None => false
  end.

Definition connIsSet : M bool := gets conn_not_nil.

Definition connIsReady : M bool :=
  gets (fun w => started w && negb (closing w) && negb (reconnecting w)
                 && conn_not_nil w).

(** *** Calls on the endpoint

    A method called on [w.conn] reads the field without the lock; on a nil
    handle the call dereferences a nil pointer.  The value the endpoint
    returns is the argument [res]. *)
Definition on_conn {A : Type} (ev : Conn -> Event) (res : A) : M A :=
  c <- gets conn ;;
  match c with
  | Some h => emit (ev h) ;; ret res
  | None => panic NilPointerDereference
  end.

(** *** Lifecycle (websocket.go, lines 68-160) *)

Definition startup (endPoint : URL) (requestHeader : option Header) : M unit :=
  let endPoint :=
    mkURL (Join [Path endPoint; "websocket"%string]) (url_rest endPoint) in
  modify (with_endPoint (URL_String endPoint)) ;;
  modify (with_requestHeader requestHeader) ;;
  modify (with_connectionTries 0) ;;
  modify (with_done (make_chan 0)) ;;
  modify (with_close (make_chan 0)) ;;
  modify (with_reconnect (make_chan 0)) ;;
  modify (with_send (make_chan messageQueueLength)) ;;
  setReconnecting false ;;
  setClosing false ;;
  go ConnectionManager ;;
  go WriterLoop ;;
  go ReaderLoop ;;
  setStarted true.

Definition teardown : M unit :=
  close_chan DoneCh done with_done ;;
  close_chan CloseCh close with_close ;;
  close_chan ReconnectCh reconnect with_reconnect ;;
  close_chan SendCh send with_send ;;
  setStarted false ;;
  setReconnecting false ;;
  setClosing false.

(** [dialed] is what [w.dialer.Dial] returns: a handle or an error. *)
Definition dial (dialed : Conn + error) : M (option error) :=
  ep <- gets endPoint ;;
  hdr <- gets requestHeader ;;
  emit (EvDial ep hdr) ;;
  match dialed with
  | inr err => ret (Some err)
  | inl c =>
      setConn (Some c) ;;
      setReconnecting false ;;
      emit EvOnConnOpen ;;
      ret None
  end.

(** [written] and [closed] are the results of the endpoint's
    [WriteMessage] and [Close]. *)
Definition closeConn (written closed : option error) : M unit :=
  emit (EvPrintln "closeConn") ;;
  set <- connIsSet ;;
  if negb set then ret tt
  else
    setClosing true ;;
    err <- on_conn (fun c => EvWriteMessage c CloseMessage
                               (FormatCloseMessage CloseNormalClosure EmptyString))
                   written ;;
    match err with
    | None => sleep (duration_mul 250 Millisecond)
    | Some _ => ret tt
    end ;;
    err <- on_conn EvConnClose closed ;;
    match err with
    | Some e => emit (EvOnConnError e)
    | None => ret tt
    end ;;
    setConn None ;;
    emit EvOnConnClose ;;
    setClosing false.

Definition writeToConn (msg : Message) (written : option error) : M (option error) :=
  r <- connIsReady ;;
  if negb r then ret (Some (errorString "connection is not open"))
  else on_conn (fun c => EvWriteJSON c msg) written.

(** The result stands for the pair of the filled [msg] and the error. *)
Definition readFromConn (read : Message + error) : M (Message + error) :=
  r <- connIsReady ;;
  if negb r then ret (inr (errorString "connection is not open"))
  else on_conn EvReadJSON read.
(** *** The three loops (websocket.go, lines 162-281)

    One definition per loop body, returning whether the loop goes round
    again ([Continue]) or the goroutine ends ([Return]).  A body is cut
    where the goroutine waits (a [select] without [default]): the part after
    the wait is a computation of its own, to be run from the state found on
    waking, which other goroutines may have changed in the meantime; the
    case the [select] takes is an argument. *)

Inductive ManagerCase := OnDone | OnClose | OnReconnect.
Inductive WriterCase := WriterOnDone | WriterOnSend.

(** The second [select] of [connectionManager]. *)
Definition connectionManager_select (taken : ManagerCase)
           (written closed : option error) : M LoopCtl :=
  match taken with
  | OnDone => recv_from tt done with_done ;; ret Return
  | OnClose =>
      recv_from false close with_close ;;
      closeConn written closed ;;
      teardown ;;
      ret Continue
  | OnReconnect =>
      recv_from false reconnect with_reconnect ;;
      closeConn written closed ;;
      ret Continue
  end.

(** [delay] is what the handler's [ReconnectAfter] returns. *)
Definition connectionManager_body (dialed : Conn + error) (delay : Duration)
           (taken : ManagerCase) (written closed : option error) : M LoopCtl :=
  d <- poll_done ;;
  if d then ret Return
  else
    cl <- isClosing ;;
    todial <- (if negb cl then set <- connIsSet ;; ret (negb set) else ret false) ;;
    if todial then
      err <- dial dialed ;;
      match err with
      | Some e =>
          emit (EvOnConnError e) ;;
          setReconnecting true ;;
          n <- gets connectionTries ;;
          emit (EvReconnectAfter n) ;;
          modify (with_connectionTries (wrap64 (n + 1))) ;;
          sleep delay ;;
          ret Continue
      | None => connectionManager_select taken written closed
      end
    else connectionManager_select taken written closed.

(** The body of [case msg := <-w.send] in [writer], lines 221-236. *)
Definition writer_send (msg : Message) (written : option error) : M LoopCtl :=
  r <- connIsReady ;;
  if negb r then sleep busyWait ;; ret Continue
  else
    err <- writeToConn msg written ;;
    match err with
    | Some e =>
        emit (EvOnWriteError e) ;;
        sendReconnect ;;
        sleep busyWait ;;
        ret Continue
    | None => ret Continue
    end.

(** The [select] of [writer], lines 217-237. *)
Definition writer_select (taken : WriterCase) (written : option error) : M LoopCtl :=
  match taken with
  | WriterOnDone => recv_from tt done with_done ;; ret Return
  | WriterOnSend =>
      msg <- recv_from zeroMessage send with_send ;;
      writer_send msg written
  end.

Definition writer_body (taken : WriterCase) (written : option error) : M LoopCtl :=
  d <- poll_done ;;
  if d then ret Return
  else
    r <- connIsReady ;;
    if negb r then sleep busyWait ;; ret Continue
    else writer_select taken written.

(** What [reader] does with the result of [readFromConn], lines 267-279. *)
Definition reader_handle (res : Message + error) : M LoopCtl :=
  match res with
  | inr err =>
      (if negb (IsCloseError err [1000])
       then emit (EvOnReadError err) ;; sendReconnect
       else ret tt) ;;
      sleep busyWait ;;
      ret Continue
  | inl msg => emit (EvOnConnMessage msg) ;; ret Continue
  end.

Definition reader_body (read : Message + error) : M LoopCtl :=
  d <- poll_done ;;
  if d then ret Return
  else
    r <- connIsReady ;;
    if negb r then sleep busyWait ;; ret Continue
    else
      res <- readFromConn read ;;
      reader_handle res.

(** *** The public methods (websocket.go, lines 38-66) *)

Definition Connect (endPoint : URL) (requestHeader : option Header)
  : M (option error) :=
  s <- isStarted ;;
  if s then ret (Some (errorString "connect was already called"))
  else startup endPoint requestHeader ;; ret None.

Definition Disconnect : M (option error) :=
  s <- isStarted ;;
  if negb s then ret (Some (errorString "not connected"))
  else
    set <- connIsSet ;;
    (if set then sendClose else teardown) ;;
    ret None.

Definition IsConnected : M bool := connIsReady.

Definition Send (msg : Message) : M unit := send_on SendCh send with_send msg.

End Session.

Arguments Ret {Message Header A} a w tr.
Arguments Panics {Message Header A} p w tr.
Arguments Blocks {Message Header A} b w tr.

(** ** Sessions that are set up and sessions that are over *)

Definition unbuffered_open {A : Type} (c : Chan A) : bool :=
  match c with
  | ChOpen O _ => true
  | _ => false
  end.

Definition chan_is_open {A : Type} (c : Chan A) : bool :=
  match c with
  | ChOpen _ _ => true
  | _ => false
  end.

(** The channels of a session, as [startup] makes them and until [teardown]
    closes them. *)
Definition channels_open {Message Header : Type} (w : @Websocket Message Header) : bool :=
  unbuffered_open (done w) && unbuffered_open (close w)
  && unbuffered_open (reconnect w) && chan_is_open (send w).

Definition channels_closed {Message Header : Type} (w : @Websocket Message Header) : bool :=
  chan_is_closed (done w) && chan_is_closed (close w)
  && chan_is_closed (reconnect w) && chan_is_closed (send w).

(** While a session is started its channels are the open channels that
    [startup] made. *)
Definition session_inv {Message Header : Type} (w : @Websocket Message Header) : Prop :=
  started w = true -> channels_open w = true.

Definition keeps_session_inv {Message Header A : Type} (m : @M Message Header A) : Prop :=
  forall w : Websocket, session_inv w -> session_inv (state_of (m w)).

(** The value [connIsReady] returns. *)
Definition ready {Message Header : Type} (w : @Websocket Message Header) : bool :=
  started w && negb (closing w) && negb (reconnecting w) && conn_not_nil w.

Definition is_OnConnClose {Message Header : Type} (e : @Event Message Header) : bool :=
  match e with
  | EvOnConnClose => true
  | _ => false
  end.

Definition is_EvSleep {Message Header : Type} (e : @Event Message Header) : bool :=
  match e with
  | EvSleep _ => true
  | _ => false
  end.

(** An open channel once closed, and the fields as [teardown] leaves them. *)
Definition closed_chan {A : Type} (c : Chan A) : Chan A :=
  match chan_close c with
  | inl c' => c'
  | inr _ => c
  end.

Definition torn_down_state {Message Header : Type} (w : @Websocket Message Header)
  : @Websocket Message Header :=
  {| conn := conn w; endPoint := endPoint w; requestHeader := requestHeader w;
     done := closed_chan (done w); close := closed_chan (close w);
     reconnect := closed_chan (reconnect w); send := closed_chan (send w);
     connectionTries := connectionTries w;
     started := false; closing := false; reconnecting := false |}.

Definition teardown_events {Message Header : Type} : list (@Event Message Header) :=
  [EvChanClose DoneCh; EvChanClose CloseCh; EvChanClose ReconnectCh;
   EvChanClose SendCh; EvSetFlag Started false; EvSetFlag Reconnecting false;
   EvSetFlag Closing false].

(** The two places where [teardown] is called: [Disconnect] on a session
    without an endpoint, and the [close] case of the connection manager,
    after [closeConn]. *)
Inductive TornDown {Message Header : Type} : @Websocket Message Header -> Prop :=
| TornDown_Disconnect (w w' : Websocket) (tr : list Event) :
    started w = true -> conn w = None ->
    Disconnect w = Ret None w' tr ->
    TornDown w'
| TornDown_manager (w w' : Websocket) (written closed : option error) (tr : list Event) :
    connectionManager_select OnClose written closed w = Ret Continue w' tr ->
    TornDown w'.

(** ** Runs of a session

    What can happen to a session between its [Connect] and the next one: a
    call of another public method, a round of one of the three loops, or the
    part of a round that follows a wait. *)

Section Runs.

Context {Message Header : Type}.
Variable zeroMessage : Message.

Inductive Step : @Websocket Message Header -> list (@Event Message Header)
                 -> @Websocket Message Header -> Prop :=
| Step_Disconnect (w : Websocket) :
    Step w (trace_of (Disconnect w)) (state_of (Disconnect w))
| Step_IsConnected (w : Websocket) :
    Step w (trace_of (IsConnected w)) (state_of (IsConnected w))
| Step_Send (msg : Message) (w : Websocket) :
    Step w (trace_of (Send msg w)) (state_of (Send msg w))
| Step_manager (dialed : Conn + error) (delay : Duration) (taken : ManagerCase)
               (written closed : option error) (w : Websocket) :
    Step w (trace_of (connectionManager_body dialed delay taken written closed w))
           (state_of (connectionManager_body dialed delay taken written closed w))
| Step_manager_select (taken : ManagerCase) (written closed : option error)
                      (w : Websocket) :
    Step w (trace_of (connectionManager_select taken written closed w))
           (state_of (connectionManager_select taken written closed w))
| Step_writer (taken : WriterCase) (written : option error) (w : Websocket) :
    Step w (trace_of (writer_body zeroMessage taken written w))
           (state_of (writer_body zeroMessage taken written w))
| Step_writer_select (taken : WriterCase) (written : option error) (w : Websocket) :
    Step w (trace_of (writer_select zeroMessage taken written w))
           (state_of (writer_select zeroMessage taken written w))
| Step_reader (read : Message + error) (w : Websocket) :
    Step w (trace_of (reader_body read w)) (state_of (reader_body read w))
| Step_reader_handle (res : Message + error) (w : Websocket) :
    Step w (trace_of (reader_handle res w)) (state_of (reader_handle res w)).

Inductive Run : @Websocket Message Header -> list (@Event Message Header)
                -> @Websocket Message Header -> Prop :=
| Run_refl (w : Websocket) : Run w [] w
| Run_step (w w1 w2 : Websocket) (tr1 tr2 : list Event) :
    Step w tr1 w1 -> Run w1 tr2 w2 -> Run w (tr1 ++ tr2) w2.

(** An event that, if it is a dial, dials [urlStr]. *)
Definition dials_only (urlStr : string) (e : @Event Message Header) : Prop :=
  match e with
  | EvDial u _ => u = urlStr
  | _ => True
  end.

(** A computation that leaves [endPoint] alone and dials nothing else. *)
Definition keeps_endPoint {A : Type} (m : @M Message Header A) : Prop :=
  forall w : Websocket,
    endPoint (state_of (m w)) = endPoint w
    /\ Forall (dials_only (endPoint w)) (trace_of (m w)).

End Runs.

(** ** The loops as loops

    [connectionManager], [writer] and [reader] are [for] loops around the
    bodies above.  A loop is run for the rounds whose collaborator results
    are given: it ends with [Return] when a round returned, and with
    [Continue] when the rounds given are used up and the goroutine is still
    going round. *)

Section Loops.

Context {Message Header : Type}.
Variable zeroMessage : Message.

(** What the collaborators answer in one round of [connectionManager]. *)
Record ManagerRound := mkManagerRound {
  round_dialed : Conn + error;
  round_delay : Duration;
  round_taken : ManagerCase;
  round_written : option error;
  round_closed : option error
}.

Fixpoint connectionManager (rounds : list ManagerRound) : @M Message Header LoopCtl :=
  match rounds with
  | [] => ret Continue
  | r :: rest =>
      bind (connectionManager_body (round_dialed r) (round_delay r) (round_taken r)
                                   (round_written r) (round_closed r))
           (fun ctl =>
              match ctl with
              | Return => ret Return
              | Continue => connectionManager rest
              end)
  end.

Fixpoint writer (rounds : list (WriterCase * option error)) : @M Message Header LoopCtl :=
  match rounds with
  | [] => ret Continue
  | (taken, written) :: rest =>
      bind (writer_body zeroMessage taken written)
           (fun ctl =>
              match ctl with
              | Return => ret Return
              | Continue => writer rest
              end)
  end.

Fixpoint reader (reads : list (Message + error)) : @M Message Header LoopCtl :=
  match reads with
  | [] => ret Continue
  | read :: rest =>
      bind (reader_body read)
           (fun ctl =>
              match ctl with
              | Return => ret Return
              | Continue => reader rest
              end)
  end.

(** A caller that calls [Send] on each message in turn. *)
Fixpoint Send_all (msgs : list Message) : @M Message Header unit :=
  match msgs with
  | [] => ret tt
  | msg :: rest => bind (Send msg) (fun _ => Send_all rest)
  end.

(** *** Reading a trace

    The endpoint as the session's events use it: [live] is the handle that
    has been taken from the dialer and not yet closed.  An event is in order
    when a handle is taken only while none is live, and a write, a read or a
    close is made on the live handle. *)
Definition endpoint_step (live : option Conn) (e : @Event Message Header)
  : option (option Conn) :=
  match e with
  | EvSetConn (Some c) =>
      match live with
      | None => Some (Some c)
      | Some _ => None
      end
  | EvConnClose c =>
      match live with
      | Some c' => if Nat.eqb c c' then Some None else None
      | None => None
      end
  | EvWriteMessage c _ _ | EvWriteJSON c _ | EvReadJSON c =>
      match live with
      | Some c' => if Nat.eqb c c' then Some live else None
      | None => None
      end
  | _ => Some live
  end.

Fixpoint endpoint_run (live : option Conn) (tr : list (@Event Message Header))
  : option (option Conn) :=
  match tr with
  | [] => Some live
  | e :: rest =>
      match endpoint_step live e with
      | Some live' => endpoint_run live' rest
      | None => None
      end
  end.

(** A computation whose use of the endpoint, from the handle the session
    holds, is in order, and ends with the handle the session then holds. *)
Definition conforms {A : Type} (m : @M Message Header A) (w : Websocket) : Prop :=
  endpoint_run (conn w) (trace_of (m w)) = Some (conn (state_of (m w))).

(** An event that leaves the endpoint as it is, whatever handle is live. *)
Definition endpoint_neutral (e : @Event Message Header) : Prop :=
  forall live : option Conn, endpoint_step live e = Some live.

Definition conforms_everywhere {A : Type} (m : @M Message Header A) : Prop :=
  forall w : Websocket, conforms m w.

(** A computation that leaves the field (or other reading of the state)
    [get] as it is, and whose events are all [quiet]. *)
Definition leaves {A F : Type} (get : @Websocket Message Header -> F)
           (quiet : @Event Message Header -> Prop) (m : @M Message Header A) : Prop :=
  forall w : Websocket,
    get (state_of (m w)) = get w /\ Forall quiet (trace_of (m w)).

(** How often the handler was asked for a delay, that is, how many dials
    failed. *)
Definition is_ReconnectAfter (e : @Event Message Header) : bool :=
  match e with
  | EvReconnectAfter _ => true
  | _ => false
  end.

Definition failed_dials (tr : list (@Event Message Header)) : Z :=
  Z.of_nat (List.length (filter is_ReconnectAfter tr)).

Definition no_ReconnectAfter (e : @Event Message Header) : Prop :=
  is_ReconnectAfter e = false.

Definition not_a_dial (e : @Event Message Header) : Prop :=
  match e with
  | EvDial _ _ => False
  | _ => True
  end.

(** The events of a row of failed dials: the dial and its outcome [(e, d)],
    the error [e] and the delay [d] the handler answers, with the attempt
    count [n] going up by one. *)
Fixpoint backoff_events (urlStr : string) (hdr : option Header) (n : Z)
         (outcomes : list (error * Duration)) : list (@Event Message Header) :=
  match outcomes with
  | [] => []
  | (e, d) :: rest =>
      [EvDial urlStr hdr; EvOnConnError e; EvSetFlag Reconnecting true;
       EvReconnectAfter n; EvSleep d]
        ++ backoff_events urlStr hdr (n + 1) rest
  end.

(** The rounds of the connection manager in which those dials fail. *)
Definition failing_round (outcome : error * Duration) : ManagerRound :=
  mkManagerRound (inr (fst outcome)) (snd outcome) OnDone None None.

(** The calls of the handler in a trace. *)
Definition is_callback (e : @Event Message Header) : bool :=
  match e with
  | EvOnConnOpen | EvOnConnClose | EvOnConnError _ | EvOnWriteError _
  | EvOnReadError _ | EvOnConnMessage _ | EvReconnectAfter _ => true
  | _ => false
  end.

(** A computation that passes to every dial the headers of the session, and
    leaves them as they are. *)
Definition dials_with (hdr : option Header) (e : @Event Message Header) : Prop :=
  match e with
  | EvDial _ h => h = hdr
  | _ => True
  end.

Definition keeps_requestHeader {A : Type} (m : @M Message Header A) : Prop :=
  forall w : Websocket,
    requestHeader (state_of (m w)) = requestHeader w
    /\ Forall (dials_with (requestHeader w)) (trace_of (m w)).

End Loops.

(** ** Sample data for the examples *)

Definition sample_URL_String (u : @URL string) : string :=
  String.append (url_rest u) (Path u).

Definition sample_URL : @URL string :=
  mkURL "/socket"%string "ws://localhost:4000"%string.

(** A session right after [Connect], before the first dial. *)
Definition sample_started : @Websocket string unit :=
  {| conn := None; endPoint := "ws://localhost:4000/socket/websocket"%string;
     requestHeader := None;
     done := ChOpen 0 []; close := ChOpen 0 []; reconnect := ChOpen 0 [];
     send := ChOpen messageQueueLength [];
     connectionTries := 0; started := true; closing := false;
     reconnecting := false |}.

(** The same session with endpoint 7 dialled. *)
Definition sample_connected : @Websocket string unit :=
  with_conn (Some 7%nat) sample_started.

(** The connected session after one [Disconnect]: the close request is on
    its way to the connection manager. *)
Definition sample_closing : @Websocket string unit :=
  with_close (ChOpen 0 [true]) (with_closing true sample_connected).

(** The connected session in the middle of a reconnect: the connection
    manager has taken the reconnect signal and [closeConn] has just set the
    closing flag; the endpoint is still there. *)
Definition sample_reconnect_closing : @Websocket string unit :=
  with_closing true (with_reconnecting true sample_connected).

(** The connected session with two messages queued. *)
Definition sample_queued : @Websocket string unit :=
  with_send (ChOpen messageQueueLength ["m1"%string; "m2"%string]) sample_connected.

(** What the first round of the connection manager logs on the started
    session when the dial succeeds with endpoint 7, and when it fails. *)
Definition sample_dial_events : list (@Event string unit) :=
  [EvDial "ws://localhost:4000/socket/websocket" None; EvSetConn (Some 7%nat);
   EvSetFlag Reconnecting false; EvOnConnOpen].

Definition sample_failed_dial_events : list (@Event string unit) :=
  [EvDial "ws://localhost:4000/socket/websocket" None;
   EvOnConnError (transportError "connection refused");
   EvSetFlag Reconnecting true; EvReconnectAfter 0; EvSleep 10000000].

Definition sample_after_failed_dial : @Websocket string unit :=
  with_connectionTries 1 (with_reconnecting true sample_started).

(** The session with its queue and channels closed by [teardown]. *)
Definition sample_torn_down : @Websocket string unit :=
  {| conn := None; endPoint := "ws://localhost:4000/socket/websocket"%string;
     requestHeader := None;
     done := ChClosed []; close := ChClosed []; reconnect := ChClosed [];
     send := ChClosed [];
     connectionTries := 0; started := false; closing := false;
     reconnecting := false |}.

(** * Properties *)

(** ** The backoff policy *)

Lemma duration_mul_exact (a b : Z) :
  int64_range (a * b) -> duration_mul a b = a * b.
Proof.
  unfold int64_range, duration_mul, wrap64. intros H.
  rewrite Z.mod_small by lia. lia.
Qed.

Lemma defaultReconnectAfterFunc_ceiling (tries : Z) :
  tries < 0 \/ 9 <= tries ->
  defaultReconnectAfterFunc tries = 5000 * Millisecond.
Proof.
  intros H. unfold defaultReconnectAfterFunc.
  replace ((0 <=? tries) && (tries <? Z.of_nat (List.length schedule))) with false.
  - apply duration_mul_exact. unfold int64_range, Millisecond, Microsecond, Nanosecond. lia.
  - symmetry. apply andb_false_iff. simpl List.length.
    destruct H; [left; apply Z.leb_gt | right; apply Z.ltb_ge]; lia.
Qed.

(** C7: the default backoff policy returns 10, 50, 100, 150, 200, 250, 500,
    1000 and 2000 milliseconds for the attempts 0 to 8, in this order, and
    5000 milliseconds for every attempt from 9 on.  It is a function of the
    attempt count alone. *)
Theorem defaultReconnectAfterFunc_schedule :
  map defaultReconnectAfterFunc [0; 1; 2; 3; 4; 5; 6; 7; 8]
  = map (fun ms => ms * Millisecond) [10; 50; 100; 150; 200; 250; 500; 1000; 2000]
  /\ forall tries : Z, 9 <= tries ->
       defaultReconnectAfterFunc tries = 5000 * Millisecond.
Proof.
  split.
  - reflexivity.
  - intros tries H. apply defaultReconnectAfterFunc_ceiling. now right.
Qed.

Lemma defaultReconnectAfterFunc_schedule_witness :
  9 <= 12 /\ defaultReconnectAfterFunc 12 = 5000 * Millisecond.
Proof.
  split; [lia | apply (proj2 defaultReconnectAfterFunc_schedule 12); lia].
Defined.

(** ** The dialled path *)

Lemma clean_loop_cons rooted dotdot out c tl :
  clean_loop rooted dotdot out (c :: tl)
  = match classify c tl with
    | EmptyElem | DotElem => clean_loop rooted dotdot out tl
    | DotDotElem =>
        if (dotdot <? List.length out)%nat
        then clean_loop rooted dotdot (backtrack out dotdot) (List.tl tl)
        else if negb rooted
        then let out' := (if (0 <? List.length out)%nat then out ++ [slash] else out)
                           ++ [dot; dot] in
             clean_loop rooted (List.length out') out' (List.tl tl)
        else clean_loop rooted dotdot out (List.tl tl)
    | RealElem =>
        clean_loop rooted dotdot
          (with_slash rooted out ++ c :: element_bytes tl) (after_element tl)
    end.
Proof.
  simp clean_loop. destruct (classify c tl); reflexivity.
Qed.

Lemma at_end_or_slash_app tl sfx :
  at_end_or_slash (tl ++ slash :: sfx) = at_end_or_slash tl.
Proof. destruct tl; reflexivity. Qed.

Lemma classify_app c tl sfx :
  classify c (tl ++ slash :: sfx) = classify c tl.
Proof.
  unfold classify. rewrite at_end_or_slash_app.
  destruct tl as [|c1 tl1]; simpl; [|rewrite at_end_or_slash_app; reflexivity].
  destruct (is_slash c), (is_dot c); reflexivity.
Qed.

Lemma element_bytes_app tl sfx :
  element_bytes (tl ++ slash :: sfx) = element_bytes tl.
Proof.
  induction tl as [|c tl IH]; simpl; [reflexivity|].
  destruct (is_slash c); [reflexivity|]. now rewrite IH.
Qed.

Lemma after_element_app tl sfx :
  after_element (tl ++ slash :: sfx) = after_element tl ++ slash :: sfx.
Proof.
  induction tl as [|c tl IH]; simpl; [reflexivity|].
  destruct (is_slash c); [reflexivity|]. exact IH.
Qed.

Lemma after_element_length tl :
  (List.length (after_element tl) <= List.length tl)%nat.
Proof.
  induction tl as [|c tl IH]; simpl; [lia|].
  destruct (is_slash c); simpl; lia.
Qed.

Lemma classify_DotDot_cons c tl :
  classify c tl = DotDotElem -> exists c1 tl1, tl = c1 :: tl1.
Proof.
  unfold classify. destruct tl as [|c1 tl1]; [|eauto].
  simpl. destruct (is_slash c), (is_dot c); discriminate.
Qed.

Lemma clean_loop_websocket (n : nat) :
  forall rooted dotdot out rest,
    (List.length rest <= n)%nat ->
    clean_loop rooted dotdot out (rest ++ slash :: websocket_bytes)
    = with_slash rooted (clean_loop rooted dotdot out rest) ++ websocket_bytes.
Proof.
  induction n as [|n IH]; intros rooted dotdot out rest Hlen.
  - destruct rest; [|simpl in Hlen; lia]. reflexivity.
  - destruct rest as [|c tl]; [reflexivity|].
    simpl in Hlen. cbn [app].
    rewrite !clean_loop_cons, classify_app.
    destruct (classify c tl) eqn:Hc.
    + apply IH. lia.
    + apply IH. lia.
    + destruct (classify_DotDot_cons c tl Hc) as (c1 & tl1 & ->).
      cbn [app List.tl]. simpl in Hlen.
      destruct (dotdot <? List.length out)%nat; [apply IH; lia|].
      destruct (negb rooted); apply IH; lia.
    + rewrite element_bytes_app, after_element_app.
      apply IH. pose proof (after_element_length tl). lia.
Qed.


Lemma clean_out_websocket (path : list ascii) :
  path <> [] ->
  clean_out (path ++ slash :: websocket_bytes)
  = with_slash (is_rooted path) (clean_out path) ++ websocket_bytes.
Proof.
  intros Hne. destruct path as [|c tl]; [congruence|].
  unfold clean_out. cbn [app is_rooted List.tl].
  destruct (is_slash c).
  - apply (clean_loop_websocket (List.length tl)). lia.
  - apply (clean_loop_websocket (List.length (c :: tl)) _ _ _ (c :: tl)). lia.
Qed.

Lemma websocket_not_fixed (n : nat) :
  forall path : list ascii,
    (List.length path <= n)%nat -> path <> [] ->
    with_slash (is_rooted path) (clean_out path) ++ websocket_bytes <> path.
Proof.
  induction n as [|n IH]; intros path Hlen Hne Heq.
  - destruct path; [congruence|simpl in Hlen; lia].
  - destruct (clean_out path) as [|x o] eqn:Ho.
    + (* the loop left nothing *)
      unfold with_slash, needs_slash in Heq. simpl in Heq.
      destruct (is_rooted path); simpl in Heq; subst path; vm_compute in Ho; discriminate Ho.
    + unfold with_slash in Heq.
      destruct (needs_slash (is_rooted path) (x :: o)) eqn:Hns.
      * rewrite <- app_assoc in Heq. cbn [app] in Heq.
        assert (Hlt : (List.length (x :: o) <= n)%nat).
        { rewrite <- Heq in Hlen. simpl in Hlen. rewrite length_app in Hlen.
          simpl in Hlen |- *. lia. }
        apply (IH (x :: o) Hlt); [discriminate|].
        rewrite <- Ho at 3. rewrite <- Heq.
        change (x :: o ++ slash :: websocket_bytes)
          with ((x :: o) ++ slash :: websocket_bytes).
        symmetry. apply clean_out_websocket. discriminate.
      * unfold needs_slash in Hns.
        destruct (is_rooted path) eqn:Hr; simpl in Hns.
        -- destruct o; [|simpl in Hns; discriminate Hns].
           rewrite <- Heq in Hr. simpl in Hr. apply Ascii.eqb_eq in Hr. subst x.
           rewrite <- Heq in Ho. vm_compute in Ho. discriminate Ho.
        -- discriminate Hns.
Qed.

Lemma Join_websocket_bytes (p : string) :
  list_ascii_of_string (Join [p; "websocket"%string])
  = match list_ascii_of_string p with
    | [] => websocket_bytes
    | path => with_slash (is_rooted path) (clean_out path) ++ websocket_bytes
    end.
Proof.
  unfold Join. cbn [fold_left].
  replace (0 + String.length p + String.length "websocket" =? 0)%nat with false
    by (symmetry; apply Nat.eqb_neq; simpl; lia).
  rewrite list_ascii_of_string_of_list_ascii.
  cbn [join_buf]. change (list_ascii_of_string "websocket") with websocket_bytes.
  destruct (list_ascii_of_string p) as [|c tl] eqn:Hp; [reflexivity|].
  change (match websocket_bytes with
          | [] | _ => (c :: tl) ++ slash :: websocket_bytes
          end) with ((c :: tl) ++ slash :: websocket_bytes).
  unfold Clean_bytes. rewrite clean_out_websocket by discriminate.
  cbn [app].
  destruct (with_slash (is_rooted (c :: tl)) (clean_out (c :: tl))); reflexivity.
Qed.

Lemma Join_websocket_changes_path (p : string) :
  Join [p; "websocket"%string] <> p.
Proof.
  intros Heq. apply (f_equal list_ascii_of_string) in Heq.
  rewrite Join_websocket_bytes in Heq.
  destruct (list_ascii_of_string p) as [|c tl] eqn:Hp; [discriminate Heq|].
  exact (websocket_not_fixed (List.length (c :: tl)) (c :: tl) (le_n _)
                             ltac:(discriminate) Heq).
Qed.

Example Join_socket :
  Join ["/socket"%string; "websocket"%string] = "/socket/websocket"%string.
Proof. reflexivity. Qed.

Example Join_no_path : Join [EmptyString; "websocket"%string] = "websocket"%string.
Proof. reflexivity. Qed.

Example Join_root : Join ["/"%string; "websocket"%string] = "/websocket"%string.
Proof. reflexivity. Qed.

Example Join_cleans :
  Join ["/a/../b/./c//"%string; "websocket"%string] = "/b/c/websocket"%string.
Proof. reflexivity. Qed.

Example Join_keeps_leading_dotdot :
  Join ["../../x/.."%string; "websocket"%string] = "../../websocket"%string.
Proof. reflexivity. Qed.

Example Join_drops_dotdot_at_root :
  Join ["/../a"%string; "websocket"%string] = "/a/websocket"%string.
Proof. reflexivity. Qed.

Example Join_websocket_twice :
  Join ["/socket/websocket"%string; "websocket"%string]
  = "/socket/websocket/websocket"%string.
Proof. reflexivity. Qed.

Example Clean_to_dot : Clean "a/.." = "."%string.
Proof. reflexivity. Qed.

Create HintDb keeps_db.
Create HintDb inv_db.
Create HintDb leaves_db.
Create HintDb conforms_db.

Section Properties.

Context {Message Header URLRest : Type}.
Variable URL_String : @URL URLRest -> string.
Variable zeroMessage : Message.

Local Abbreviation Websocket := (@Websocket Message Header).
Local Abbreviation Event := (@Event Message Header).
Local Abbreviation Outcome := (@Outcome Message Header).
Local Abbreviation M := (@M Message Header).
Local Abbreviation NewWebsocket := (@NewWebsocket Message Header).
Local Abbreviation keeps_endPoint :=
  (keeps_endPoint (Message:=Message) (Header:=Header)).
Local Abbreviation keeps_session_inv :=
  (keeps_session_inv (Message:=Message) (Header:=Header)).

(** ** Traces of sequenced computations *)

Lemma prepend_nil {A : Type} (o : Outcome A) : prepend [] o = o.
Proof. destruct o; reflexivity. Qed.

Lemma prepend_prepend {A : Type} (t1 t2 : list Event) (o : Outcome A) :
  prepend t1 (prepend t2 o) = prepend (t1 ++ t2) o.
Proof. destruct o; simpl; rewrite app_assoc; reflexivity. Qed.

Lemma trace_of_prepend {A : Type} (tr : list Event) (o : Outcome A) :
  trace_of (prepend tr o) = tr ++ trace_of o.
Proof. destruct o; reflexivity. Qed.

Lemma state_of_prepend {A : Type} (tr : list Event) (o : Outcome A) :
  state_of (prepend tr o) = state_of o.
Proof. destruct o; reflexivity. Qed.

Lemma bind_Ret {A B : Type} (m : M A) (k : A -> M B) (w w1 : Websocket)
      (a : A) (tr : list Event) :
  m w = Ret a w1 tr -> bind m k w = prepend tr (k a w1).
Proof. intros H. unfold bind. rewrite H. reflexivity. Qed.

Lemma bind_gets {A B : Type} (f : Websocket -> A) (k : A -> M B) (w : Websocket) :
  bind (gets f) k w = k (f w) w.
Proof. unfold bind, gets. apply prepend_nil. Qed.

Lemma bind_ret {A B : Type} (a : A) (k : A -> M B) (w : Websocket) :
  bind (ret a) k w = k a w.
Proof. unfold bind, ret. apply prepend_nil. Qed.

Lemma bind_modify {B : Type} (f : Websocket -> Websocket) (k : unit -> M B)
      (w : Websocket) :
  bind (modify f) k w = k tt (f w).
Proof. unfold bind, modify. apply prepend_nil. Qed.

Lemma bind_emit {B : Type} (e : Event) (k : unit -> M B) (w : Websocket) :
  bind (emit e) k w = prepend [e] (k tt w).
Proof. reflexivity. Qed.

Lemma bind_assoc {A B C : Type} (m : M A) (k : A -> M B) (h : B -> M C)
      (w : Websocket) :
  bind (bind m k) h w = bind m (fun a => bind (k a) h) w.
Proof.
  unfold bind. destruct (m w) as [a w1 t1| |]; try reflexivity.
  destruct (k a w1) as [b w2 t2| |]; simpl; try reflexivity.
  symmetry. apply prepend_prepend.
Qed.

(** Runs the reads, the returns and the logging at the head of a computation. *)
Ltac monad :=
  repeat (rewrite ?bind_assoc, ?bind_gets, ?bind_ret, ?bind_modify, ?bind_emit,
            ?prepend_prepend, ?prepend_nil, ?trace_of_prepend, ?state_of_prepend;
          cbn [app negb andb orb]).

(** ** Readiness *)

Lemma ready_true_iff (w : Websocket) :
  ready w = true
  <-> started w = true /\ closing w = false /\ reconnecting w = false
      /\ conn w <> None.
Proof.
  unfold ready, conn_not_nil.
  destruct (started w), (closing w), (reconnecting w), (conn w); simpl;
    intuition congruence.
Qed.

Lemma connIsReady_run (w : Websocket) : connIsReady w = Ret (ready w) w [].
Proof. reflexivity. Qed.

Lemma ready_conn (w : Websocket) :
  ready w = true -> exists c, conn w = Some c.
Proof.
  intros H. apply ready_true_iff in H. destruct (conn w) as [c|]; [eauto|].
  exfalso. intuition congruence.
Qed.

Lemma writer_send_not_ready (msg : Message) (written : option error) (w : Websocket) :
  ready w = false ->
  writer_send msg written w = Ret Continue w [EvSleep busyWait].
Proof.
  intros H. unfold writer_send. rewrite (bind_Ret _ _ _ _ _ _ (connIsReady_run w)).
  rewrite H. reflexivity.
Qed.

Lemma writer_send_ready (msg : Message) (written : option error) (w : Websocket)
      (c : Conn) :
  ready w = true -> conn w = Some c ->
  writer_send msg written w
  = prepend [EvWriteJSON c msg]
      (match written with
       | Some e =>
           prepend [EvOnWriteError e]
             (bind sendReconnect
                   (fun _ => bind (sleep busyWait) (fun _ => ret Continue)) w)
       | None => Ret Continue w []
       end).
Proof.
  intros H Hc. unfold writer_send, writeToConn, on_conn.
  rewrite (bind_Ret _ _ _ _ _ _ (connIsReady_run w)), H. monad.
  rewrite (bind_Ret _ _ _ _ _ _ (connIsReady_run w)), H. monad.
  rewrite Hc. monad. destruct written; monad; reflexivity.
Qed.

Lemma poll_done_run (w : Websocket) :
  poll_done w
  = match chan_recv tt (done w) with
    | Some (_, c) => Ret true (with_done c w) []
    | None => Ret false w []
    end.
Proof. reflexivity. Qed.

Lemma reader_body_not_done (read : Message + error) (w : Websocket) :
  chan_recv tt (done w) = None ->
  reader_body read w
  = if ready w
    then match conn w with
         | Some c => prepend [EvReadJSON c] (reader_handle read w)
         | None => Panics NilPointerDereference w []
         end
    else Ret Continue w [EvSleep busyWait].
Proof.
  intros Hd. unfold reader_body, readFromConn, on_conn.
  unfold bind at 1. rewrite poll_done_run, Hd. monad.
  rewrite (bind_Ret _ _ _ _ _ _ (connIsReady_run w)).
  destruct (ready w) eqn:H; monad; [|reflexivity].
  rewrite (bind_Ret _ _ _ _ _ _ (connIsReady_run w)), H. monad.
  destruct (conn w); monad; reflexivity.
Qed.

Lemma reader_body_done (read : Message + error) (w : Websocket)
      (v : unit) (c : Chan unit) :
  chan_recv tt (done w) = Some (v, c) ->
  reader_body read w = Ret Return (with_done c w) [].
Proof.
  intros Hd. unfold reader_body. unfold bind at 1. rewrite poll_done_run, Hd.
  reflexivity.
Qed.

Lemma writer_body_not_done (taken : WriterCase) (written : option error)
      (w : Websocket) :
  chan_recv tt (done w) = None ->
  writer_body zeroMessage taken written w
  = if ready w then writer_select zeroMessage taken written w
    else Ret Continue w [EvSleep busyWait].
Proof.
  intros Hd. unfold writer_body.
  unfold bind at 1. rewrite poll_done_run, Hd. monad.
  rewrite (bind_Ret _ _ _ _ _ _ (connIsReady_run w)).
  destruct (ready w); monad; reflexivity.
Qed.

(** C1: [IsConnected] returns true exactly when, in the state it reads, the
    session is started, is not closing, is not reconnecting and holds an
    endpoint; it changes nothing; and it is the predicate [connIsReady]
    on which the writer and the reader decide: a message taken from the
    queue is written to the endpoint, and the reader (not yet told to
    finish) reads from the endpoint, exactly in the states where
    [IsConnected] returns true. *)
Theorem IsConnected_iff_ready (w : Websocket) :
  (exists b : bool,
      IsConnected w = Ret b w []
      /\ (b = true <-> started w = true /\ closing w = false
                       /\ reconnecting w = false /\ conn w <> None))
  /\ IsConnected w = connIsReady w
  /\ (forall (msg : Message) (written : option error),
         (exists c, In (EvWriteJSON c msg) (trace_of (writer_send msg written w)))
         <-> IsConnected w = Ret true w [])
  /\ (forall read : Message + error,
         (exists c, In (EvReadJSON c) (trace_of (reader_body read w)))
         <-> chan_recv tt (done w) = None /\ IsConnected w = Ret true w []).
Proof.
  split; [|split; [reflexivity|split]].
  - exists (ready w). split; [reflexivity|]. apply ready_true_iff.
  - intros msg written. unfold IsConnected. rewrite connIsReady_run.
    destruct (ready w) eqn:H.
    + destruct (ready_conn w H) as [c Hc].
      rewrite (writer_send_ready msg written w c H Hc), trace_of_prepend.
      split; [reflexivity|]. intros _. exists c. simpl. now left.
    + rewrite writer_send_not_ready by assumption. simpl.
      split; [intros [c [Hin|[]]]; discriminate Hin | discriminate].
  - intros read. unfold IsConnected. rewrite connIsReady_run.
    destruct (chan_recv tt (done w)) as [[v c]|] eqn:Hd.
    + rewrite (reader_body_done read w v c Hd). simpl.
      split; [intros [c0 []] | intros [Hn _]; discriminate Hn].
    + rewrite (reader_body_not_done read w Hd).
      destruct (ready w) eqn:H.
      * destruct (ready_conn w H) as [c Hc]. rewrite Hc, trace_of_prepend.
        split; [auto|]. intros _. exists c. simpl. now left.
      * simpl. split; [intros [c [Hin|[]]]; discriminate Hin|].
        intros [_ Hr]. discriminate Hr.
Qed.

(** ** The reconnect signal *)

Lemma sendReconnect_run (w : Websocket) :
  sendReconnect w
  = if reconnecting w || closing w then Ret tt w []
    else prepend [EvSetFlag Reconnecting true]
           (send_on ReconnectCh reconnect with_reconnect true
                    (with_reconnecting true w)).
Proof.
  unfold sendReconnect. monad.
  destruct (reconnecting w || closing w); monad; reflexivity.
Qed.

Lemma sendReconnect_noop (w : Websocket) :
  reconnecting w = true \/ closing w = true ->
  sendReconnect w = Ret tt w [].
Proof.
  intros H. rewrite sendReconnect_run.
  replace (reconnecting w || closing w) with true; [reflexivity|].
  symmetry. apply orb_true_iff. exact H.
Qed.

Lemma sendReconnect_raise (w : Websocket) (buf : list bool) :
  reconnecting w = false -> closing w = false ->
  reconnect w = ChOpen 0 buf ->
  sendReconnect w
  = Ret tt (with_reconnect (ChOpen 0 (buf ++ [true])) (with_reconnecting true w))
        [EvSetFlag Reconnecting true; EvChanSend ReconnectCh].
Proof.
  intros Hr Hc Hch. rewrite sendReconnect_run, Hr, Hc. simpl.
  unfold send_on. simpl. rewrite Hch. reflexivity.
Qed.


(** ** The reader and read errors *)

Lemma IsCloseError_normal_iff (err : error) :
  IsCloseError err [1000] = true <-> exists text, err = CloseError 1000 text.
Proof.
  destruct err as [code text|s|s]; simpl.
  - rewrite orb_false_r, Z.eqb_eq. split.
    + intros ->. eauto.
    + intros [t Ht]. congruence.
  - split; [discriminate|intros [t Ht]; discriminate Ht].
  - split; [discriminate|intros [t Ht]; discriminate Ht].
Qed.

Lemma reader_handle_error (err : error) (w : Websocket) :
  reader_handle (inr err) w
  = if IsCloseError err [1000] then Ret Continue w [EvSleep busyWait]
    else prepend [EvOnReadError err]
           (bind sendReconnect
                 (fun _ => bind (sleep busyWait) (fun _ => ret Continue)) w).
Proof.
  unfold reader_handle. destruct (IsCloseError err [1000]); monad; reflexivity.
Qed.

(** C5: when the reader's read fails with [err], the handler's read-error
    callback is invoked, and then the reconnect signal is raised, exactly
    when [err] is not a close error with code 1000.  For a close error with
    code 1000 there is no callback and no signal: the reader only idles one
    polling interval, and the state is as it was.  The last part ties this
    to the loop: a round of the reader that reads from endpoint [c] and gets
    [err] goes on exactly so. *)
Theorem reader_read_error (err : error) (w : Websocket) :
  (In (EvOnReadError err) (trace_of (reader_handle (inr err) w))
   <-> ~ exists text, err = CloseError 1000 text)
  /\ ((exists text, err = CloseError 1000 text) ->
      reader_handle (inr err) w = Ret Continue w [EvSleep busyWait])
  /\ ((~ exists text, err = CloseError 1000 text) ->
      reader_handle (inr err) w
      = bind (emit (EvOnReadError err))
             (fun _ => bind sendReconnect
                (fun _ => bind (sleep busyWait) (fun _ => ret Continue))) w)
  /\ (forall buf : list bool,
         (~ exists text, err = CloseError 1000 text) ->
         reconnecting w = false -> closing w = false ->
         reconnect w = ChOpen 0 buf ->
         reader_handle (inr err) w
         = Ret Continue
               (with_reconnect (ChOpen 0 (buf ++ [true])) (with_reconnecting true w))
               [EvOnReadError err; EvSetFlag Reconnecting true;
                EvChanSend ReconnectCh; EvSleep busyWait])
  /\ (forall c : Conn,
         chan_recv tt (done w) = None -> ready w = true -> conn w = Some c ->
         reader_body (inr err) w
         = prepend [EvReadJSON c] (reader_handle (inr err) w)).
Proof.
  assert (Hbody : forall c : Conn,
             chan_recv tt (done w) = None -> ready w = true -> conn w = Some c ->
             reader_body (inr err) w
             = prepend [EvReadJSON c] (reader_handle (inr err) w)).
  { intros c Hd Hr Hc. rewrite (reader_body_not_done _ _ Hd), Hr, Hc. reflexivity. }
  revert Hbody. generalize (reader_body (inr err) w). intros body Hbody.
  rewrite reader_handle_error in *.
  pose proof (IsCloseError_normal_iff err) as Hiff.
  destruct (IsCloseError err [1000]) eqn:H.
  - assert (Hex : exists text, err = CloseError 1000 text) by (now apply Hiff).
    split; [|split; [|split; [|split]]].
    + simpl. split; [intros [Hin|[]]; discriminate Hin | intros Hn; now elim Hn].
    + reflexivity.
    + intros Hn. now elim Hn.
    + intros buf Hn. now elim Hn.
    + exact Hbody.
  - assert (Hex : ~ exists text, err = CloseError 1000 text).
    { intros Hex. apply Hiff in Hex. discriminate Hex. }
    split; [|split; [|split; [|split]]].
    + rewrite trace_of_prepend. simpl. split; [auto | now left].
    + intros Hy. now elim Hex.
    + intros _. reflexivity.
    + intros buf _ Hr Hc Hch.
      rewrite (bind_Ret _ _ _ _ _ _ (sendReconnect_raise w buf Hr Hc Hch)).
      reflexivity.
    + exact Hbody.
Qed.

(** ** The writer and a message it cannot send *)

Lemma ready_with_send (c : Chan Message) (w : Websocket) :
  ready (with_send c w) = ready w.
Proof. reflexivity. Qed.

(** C9: when the writer has taken a message from the queue and the
    readiness predicate does not hold in the state it then finds, the
    message is dropped: the writer only idles one polling interval and goes
    round its loop; nothing is written to the endpoint, no callback of the
    handler is invoked, and the queue is left as the receive left it, without
    the message. *)
Theorem writer_drops_message_when_not_ready
        (w : Websocket) (msg : Message) (queue : Chan Message)
        (written : option error) :
  chan_recv zeroMessage (send w) = Some (msg, queue) ->
  ready w = false ->
  writer_select zeroMessage WriterOnSend written w
  = Ret Continue (with_send queue w) [EvSleep busyWait]
  /\ writer_send msg written (with_send queue w)
     = Ret Continue (with_send queue w) [EvSleep busyWait].
Proof.
  intros Hq Hr.
  assert (Hs : writer_send msg written (with_send queue w)
               = Ret Continue (with_send queue w) [EvSleep busyWait]).
  { apply writer_send_not_ready. rewrite ready_with_send. exact Hr. }
  split; [|exact Hs].
  unfold writer_select, recv_from. unfold bind at 1. rewrite Hq, Hs. reflexivity.
Qed.

(** ** Closing the endpoint *)

Lemma closeConn_no_conn (written closed : option error) (w : Websocket) :
  conn w = None ->
  closeConn written closed w = Ret tt w [EvPrintln "closeConn"].
Proof.
  intros H. destruct w; simpl in H; subst. reflexivity.
Qed.

(** C2, as the code has it: on a session that holds endpoint [c],
    [closeConn] prints its name and then, in this order, sets the closing
    flag; sends the close frame (code 1000, empty text) to the peer; waits
    250 ms if, and only if, that send succeeded; closes the endpoint and
    reports an error of that close to the handler; sets the endpoint handle
    to nil; calls [OnConnClose], once; clears the closing flag. *)
Theorem closeConn_steps (w : Websocket) (c : Conn) (written closed : option error) :
  conn w = Some c ->
  closeConn written closed w
  = Ret tt (with_closing false (with_conn None w))
        ([EvPrintln "closeConn"; EvSetFlag Closing true;
          EvWriteMessage c CloseMessage
                         (FormatCloseMessage CloseNormalClosure EmptyString)]
           ++ match written with
              | None => [EvSleep (250 * Millisecond)]
              | Some _ => []
              end
           ++ [EvConnClose c]
           ++ match closed with
              | Some e => [EvOnConnError e]
              | None => []
              end
           ++ [EvSetConn None; EvOnConnClose; EvSetFlag Closing false])
  /\ List.length (filter is_OnConnClose (trace_of (closeConn written closed w))) = 1%nat.
Proof.
  intros H. destruct w; simpl in H; subst.
  destruct written, closed; split; reflexivity.
Qed.

(** ** Connect *)

Lemma bind_Ret_inv {A B : Type} (m : M A) (k : A -> M B) (w w2 : Websocket)
      (b : B) (tr : list Event) :
  bind m k w = Ret b w2 tr ->
  exists a w1 t1 t2, m w = Ret a w1 t1 /\ k a w1 = Ret b w2 t2 /\ tr = t1 ++ t2.
Proof.
  unfold bind. destruct (m w) as [a w1 t1| |]; try discriminate.
  destruct (k a w1) as [b' w2' t2| |] eqn:Hk; simpl; try discriminate.
  intros H. injection H as -> -> <-. exists a, w1, t1, t2. auto.
Qed.

Lemma Connect_started (target : URL) (hdr : option Header) (w : Websocket) :
  started w = true ->
  Connect URL_String target hdr w
  = Ret (Some (errorString "connect was already called")) w [].
Proof.
  intros H. unfold Connect, isStarted. rewrite bind_gets, H. reflexivity.
Qed.

Lemma Connect_not_started (target : URL) (hdr : option Header) (w : Websocket) :
  started w = false ->
  Connect URL_String target hdr w
  = Ret None
        {| conn := conn w;
           endPoint := URL_String (mkURL (Join [Path target; "websocket"%string])
                                         (url_rest target));
           requestHeader := hdr;
           done := ChOpen 0 [];
           close := ChOpen 0 [];
           reconnect := ChOpen 0 [];
           send := ChOpen 100 [];
           connectionTries := 0;
           started := true;
           closing := false;
           reconnecting := false |}
        [EvSetFlag Reconnecting false; EvSetFlag Closing false;
         EvGo ConnectionManager; EvGo WriterLoop; EvGo ReaderLoop;
         EvSetFlag Started true].
Proof.
  intros H. unfold Connect, isStarted. rewrite bind_gets, H. reflexivity.
Qed.

(** C3: [Connect] returns an error exactly when the session is already
    started, and then changes nothing.  On a session that is not started it
    returns nil at once: it stores the target and the headers, resets the
    attempt counter, makes the three signal channels and the queue of 100
    messages, clears the reconnecting and closing flags, launches the
    connection manager, the writer and the reader, and sets the started
    flag; it does not dial, the connection manager does. *)
Theorem Connect_guard (target : URL) (hdr : option Header) (w : Websocket) :
  ((exists e w' tr, Connect URL_String target hdr w = Ret (Some e) w' tr)
   <-> started w = true)
  /\ (started w = true ->
      Connect URL_String target hdr w
      = Ret (Some (errorString "connect was already called")) w [])
  /\ (started w = false ->
      Connect URL_String target hdr w
      = Ret None
            {| conn := conn w;
               endPoint := URL_String
                             (mkURL (Join [Path target; "websocket"%string])
                                    (url_rest target));
               requestHeader := hdr;
               done := ChOpen 0 [];
               close := ChOpen 0 [];
               reconnect := ChOpen 0 [];
               send := ChOpen messageQueueLength [];
               connectionTries := 0;
               started := true;
               closing := false;
               reconnecting := false |}
            [EvSetFlag Reconnecting false; EvSetFlag Closing false;
             EvGo ConnectionManager; EvGo WriterLoop; EvGo ReaderLoop;
             EvSetFlag Started true])
  /\ (forall (urlStr : string) (h : option Header),
         ~ In (EvDial urlStr h) (trace_of (Connect URL_String target hdr w))).
Proof.
  split; [|split; [apply Connect_started|split; [apply Connect_not_started|]]].
  - destruct (started w) eqn:H.
    + rewrite Connect_started by assumption. split; [reflexivity|]. eauto.
    + rewrite Connect_not_started by assumption.
      split; [intros (e & w' & tr & Heq); discriminate Heq | discriminate].
  - intros urlStr h. destruct (started w) eqn:H.
    + rewrite Connect_started by assumption. simpl. tauto.
    + rewrite Connect_not_started by assumption. simpl.
      intros Hin. repeat (destruct Hin as [Hin|Hin]; [discriminate Hin|]). exact Hin.
Qed.

(** ** Disconnect and teardown *)

Lemma teardown_Ret_inv (w w' : Websocket) (tr : list Event) :
  teardown w = Ret tt w' tr ->
  w' = torn_down_state w /\ tr = teardown_events
  /\ chan_is_open (done w) = true /\ chan_is_open (close w) = true
  /\ chan_is_open (reconnect w) = true /\ chan_is_open (send w) = true.
Proof.
  destruct w as [c ep hdr dn cl rc sd n st cg rg].
  destruct dn as [|? ?|?], cl as [|? ?|?], rc as [|? ?|?], sd as [|? ?|?];
    cbv; intros H; try discriminate H.
  injection H as <- <-. repeat split.
Qed.

Lemma teardown_open (w : Websocket) :
  chan_is_open (done w) = true -> chan_is_open (close w) = true ->
  chan_is_open (reconnect w) = true -> chan_is_open (send w) = true ->
  teardown w = Ret tt (torn_down_state w) teardown_events.
Proof.
  destruct w as [c ep hdr dn cl rc sd n st cg rg].
  destruct dn as [|? ?|?], cl as [|? ?|?], rc as [|? ?|?], sd as [|? ?|?];
    cbn [chan_is_open done close reconnect send]; intros; try discriminate.
  reflexivity.
Qed.

Lemma channels_open_each (w : Websocket) :
  channels_open w = true ->
  chan_is_open (done w) = true /\ chan_is_open (close w) = true
  /\ chan_is_open (reconnect w) = true /\ chan_is_open (send w) = true.
Proof.
  unfold channels_open.
  destruct (done w) as [|[|?] ?|?], (close w) as [|[|?] ?|?],
           (reconnect w) as [|[|?] ?|?], (send w) as [|? ?|?];
    simpl; intros H; try discriminate H; auto.
Qed.

Lemma sendClose_run (w : Websocket) :
  sendClose w
  = if closing w then Ret tt w []
    else prepend [EvSetFlag Closing true]
           (send_on CloseCh close with_close true (with_closing true w)).
Proof.
  unfold sendClose. monad. destruct (closing w); monad; reflexivity.
Qed.

Lemma Disconnect_run (w : Websocket) :
  Disconnect w
  = if started w
    then bind (if conn_not_nil w then sendClose else teardown)
              (fun _ => ret None) w
    else Ret (Some (errorString "not connected")) w [].
Proof.
  unfold Disconnect, isStarted, connIsSet. monad.
  destruct (started w); monad; reflexivity.
Qed.

Lemma bind_ret_None_not_Some {A : Type} (m : M A) (w w' : Websocket)
      (e : error) (tr : list Event) :
  bind m (fun _ => ret (@None error)) w <> Ret (Some e) w' tr.
Proof.
  intros H. apply bind_Ret_inv in H.
  destruct H as (a & w1 & t1 & t2 & _ & Hk & _). discriminate Hk.
Qed.


(** ** After teardown *)

Lemma closed_chan_closed {A : Type} (c : Chan A) :
  chan_is_open c = true -> chan_is_closed (closed_chan c) = true.
Proof. destruct c; simpl; [discriminate|reflexivity|discriminate]. Qed.

Lemma closeConn_run (w : Websocket) (c : Conn) (written closed : option error) :
  conn w = Some c ->
  closeConn written closed w
  = Ret tt (with_closing false (with_conn None w))
        ([EvPrintln "closeConn"; EvSetFlag Closing true;
          EvWriteMessage c CloseMessage
                         (FormatCloseMessage CloseNormalClosure EmptyString)]
           ++ match written with
              | None => [EvSleep (250 * Millisecond)]
              | Some _ => []
              end
           ++ [EvConnClose c]
           ++ match closed with
              | Some e => [EvOnConnError e]
              | None => []
              end
           ++ [EvSetConn None; EvOnConnClose; EvSetFlag Closing false]).
Proof.
  intros H. destruct w; simpl in H; subst.
  destruct written, closed; reflexivity.
Qed.

Lemma closeConn_Ret_inv (written closed : option error) (w w' : Websocket)
      (tr : list Event) :
  closeConn written closed w = Ret tt w' tr ->
  w' = with_closing (match conn w with Some _ => false | None => closing w end)
                    (with_conn None w).
Proof.
  destruct (conn w) as [c|] eqn:Hc.
  - rewrite (closeConn_run w c written closed Hc).
    intros H. injection H as <- _. reflexivity.
  - rewrite closeConn_no_conn by assumption.
    intros H. injection H as <- _.
    destruct w; simpl in Hc; subst; reflexivity.
Qed.

Lemma TornDown_state (w : Websocket) :
  TornDown w ->
  started w = false /\ closing w = false /\ reconnecting w = false
  /\ conn w = None /\ channels_closed w = true.
Proof.
  assert (Hclosed : forall w0 : Websocket,
             chan_is_open (done w0) = true /\ chan_is_open (close w0) = true
             /\ chan_is_open (reconnect w0) = true /\ chan_is_open (send w0) = true ->
             channels_closed (torn_down_state w0) = true).
  { intros w0 (H1 & H2 & H3 & H4). unfold channels_closed, torn_down_state.
    cbn [done close reconnect send].
    rewrite !closed_chan_closed by assumption. reflexivity. }
  intros [w0 w' tr Hs Hc Hd | w0 w' written closed tr Hm].
  - rewrite Disconnect_run, Hs in Hd. unfold conn_not_nil in Hd. rewrite Hc in Hd.
    apply bind_Ret_inv in Hd. destruct Hd as ([] & w1 & t1 & t2 & Ht & Hr & _).
    injection Hr as <- _.
    apply teardown_Ret_inv in Ht. destruct Ht as (-> & _ & Ho).
    repeat split; auto.
  - unfold connectionManager_select in Hm.
    apply bind_Ret_inv in Hm. destruct Hm as (v & w1 & t1 & t2 & Hrecv & Hm & _).
    apply bind_Ret_inv in Hm. destruct Hm as ([] & w2 & t3 & t4 & Hcc & Hm & _).
    apply bind_Ret_inv in Hm. destruct Hm as ([] & w3 & t5 & t6 & Ht & Hr & _).
    injection Hr as <- _.
    apply closeConn_Ret_inv in Hcc.
    apply teardown_Ret_inv in Ht. destruct Ht as (-> & _ & Ho).
    repeat split; auto.
    subst w2. reflexivity.
Qed.

Lemma NewWebsocket_public :
  Disconnect NewWebsocket
  = Ret (Some (errorString "not connected")) NewWebsocket []
  /\ IsConnected NewWebsocket = Ret false NewWebsocket []
  /\ forall msg : Message, Send msg NewWebsocket = Blocks NilChannel NewWebsocket [].
Proof. repeat split. Qed.


(** ** The dialled URL *)

Lemma keeps_ret {A : Type} (a : A) : keeps_endPoint (ret a).
Proof. intros w. split; [reflexivity|constructor]. Qed.

Lemma keeps_gets {A : Type} (f : Websocket -> A) : keeps_endPoint (gets f).
Proof. intros w. split; [reflexivity|constructor]. Qed.

Lemma keeps_panic {A : Type} (p : PanicMsg) :
  keeps_endPoint (panic p : M A).
Proof. intros w. split; [reflexivity|constructor]. Qed.

Lemma keeps_modify (f : Websocket -> Websocket) :
  (forall w, endPoint (f w) = endPoint w) -> keeps_endPoint (modify f).
Proof. intros H w. split; [apply H|constructor]. Qed.

Lemma keeps_emit (e : Event) :
  (forall urlStr, dials_only urlStr e) -> keeps_endPoint (emit e).
Proof. intros H w. split; [reflexivity|]. repeat constructor. apply H. Qed.

Lemma keeps_bind {A B : Type} (m : M A) (k : A -> M B) :
  keeps_endPoint m -> (forall a, keeps_endPoint (k a)) ->
  keeps_endPoint (bind m k).
Proof.
  intros Hm Hk w. unfold bind. specialize (Hm w).
  destruct (m w) as [a w1 t1|p w1 t1|r w1 t1]; simpl in Hm; [|exact Hm|exact Hm].
  destruct Hm as [He Hd]. specialize (Hk a w1).
  rewrite state_of_prepend, trace_of_prepend, <- He.
  split; [apply Hk|]. apply Forall_app. split; [rewrite He; exact Hd|apply Hk].
Qed.

Lemma keeps_send_on {A : Type} (name : ChanName) (get : Websocket -> Chan A)
      (set : Chan A -> Websocket -> Websocket) (v : A) :
  (forall c w, endPoint (set c w) = endPoint w) ->
  keeps_endPoint (send_on name get set v).
Proof.
  intros H w. unfold send_on.
  destruct (chan_send (get w) v) as [c|[p|r]]; simpl;
    (split; [auto|repeat constructor]).
Qed.

Lemma keeps_close_chan {A : Type} (name : ChanName) (get : Websocket -> Chan A)
      (set : Chan A -> Websocket -> Websocket) :
  (forall c w, endPoint (set c w) = endPoint w) ->
  keeps_endPoint (close_chan name get set).
Proof.
  intros H w. unfold close_chan.
  destruct (chan_close (get w)) as [c|p]; simpl;
    (split; [auto|repeat constructor]).
Qed.

Lemma keeps_recv_from {A : Type} (zero : A) (get : Websocket -> Chan A)
      (set : Chan A -> Websocket -> Websocket) :
  (forall c w, endPoint (set c w) = endPoint w) ->
  keeps_endPoint (recv_from zero get set).
Proof.
  intros H w. unfold recv_from.
  destruct (chan_recv zero (get w)) as [[v c]|]; simpl;
    (split; [auto|repeat constructor]).
Qed.

Lemma keeps_poll_done : keeps_endPoint poll_done.
Proof.
  intros w. unfold poll_done.
  destruct (chan_recv tt (done w)) as [[v c]|]; simpl;
    (split; [auto|repeat constructor]).
Qed.

(** [dial] passes [w.endPoint] to the dialer, as it finds it. *)
Lemma dial_run (dialed : Conn + error) (w : Websocket) :
  dial dialed w
  = match dialed with
    | inl c => Ret None (with_reconnecting false (with_conn (Some c) w))
                   [EvDial (endPoint w) (requestHeader w); EvSetConn (Some c);
                    EvSetFlag Reconnecting false; EvOnConnOpen]
    | inr err => Ret (Some err) w [EvDial (endPoint w) (requestHeader w)]
    end.
Proof. destruct dialed; reflexivity. Qed.

Lemma keeps_dial (dialed : Conn + error) : keeps_endPoint (dial dialed).
Proof.
  intros w. rewrite dial_run.
  destruct dialed; simpl; (split; [reflexivity|repeat constructor]).
Qed.

#[local] Hint Resolve keeps_dial keeps_poll_done : keeps_db.

Ltac keeps :=
  repeat first
    [ solve [auto 1 with keeps_db nocore]
    | apply keeps_bind; [|intros ?]
    | apply keeps_ret | apply keeps_gets | apply keeps_panic
    | apply keeps_modify; intros ?; reflexivity
    | apply keeps_emit; intros ?; exact I
    | apply keeps_send_on; intros ? ?; reflexivity
    | apply keeps_close_chan; intros ? ?; reflexivity
    | apply keeps_recv_from; intros ? ?; reflexivity
    | match goal with
      | |- keeps_endPoint (if ?b then _ else _) => destruct b
      | |- keeps_endPoint (match ?x with _ => _ end) => destruct x
      end ].

Lemma keeps_sendReconnect : keeps_endPoint sendReconnect.
Proof. unfold sendReconnect. keeps. Qed.

#[local] Hint Resolve keeps_sendReconnect : keeps_db.

Lemma keeps_closeConn (written closed : option error) :
  keeps_endPoint (closeConn written closed).
Proof.
  unfold closeConn, connIsSet, setClosing, setConn, on_conn, sleep. keeps.
Qed.

Lemma keeps_teardown : keeps_endPoint teardown.
Proof.
  unfold teardown, setStarted, setReconnecting, setClosing. keeps.
Qed.

#[local] Hint Resolve keeps_closeConn keeps_teardown : keeps_db.

Lemma keeps_connectionManager_select (taken : ManagerCase)
      (written closed : option error) :
  keeps_endPoint (connectionManager_select taken written closed).
Proof.
  unfold connectionManager_select.
  destruct taken; keeps.
Qed.

Lemma keeps_reader_handle (res : Message + error) :
  keeps_endPoint (reader_handle res).
Proof.
  unfold reader_handle, sleep. keeps.
Qed.

Lemma keeps_writer_select (taken : WriterCase) (written : option error) :
  keeps_endPoint (writer_select zeroMessage taken written).
Proof.
  unfold writer_select, writer_send, writeToConn, connIsReady, on_conn, sleep.
  keeps.
Qed.

#[local] Hint Resolve keeps_connectionManager_select keeps_reader_handle
  keeps_writer_select : keeps_db.

Lemma keeps_Disconnect : keeps_endPoint Disconnect.
Proof.
  unfold Disconnect, isStarted, connIsSet, sendClose. keeps.
Qed.

Lemma keeps_connectionManager_body (dialed : Conn + error) (delay : Duration)
      (taken : ManagerCase) (written closed : option error) :
  keeps_endPoint (connectionManager_body dialed delay taken written closed).
Proof.
  unfold connectionManager_body, isClosing, connIsSet, setReconnecting, sleep.
  keeps.
Qed.

Lemma keeps_writer_body (taken : WriterCase) (written : option error) :
  keeps_endPoint (writer_body zeroMessage taken written).
Proof.
  unfold writer_body, connIsReady, sleep. keeps.
Qed.

Lemma keeps_reader_body (read : Message + error) :
  keeps_endPoint (reader_body read).
Proof.
  unfold reader_body, readFromConn, connIsReady, on_conn, sleep.
  keeps.
Qed.

Lemma Step_keeps_endPoint (w w1 : Websocket) (tr : list Event) :
  Step zeroMessage w tr w1 ->
  endPoint w1 = endPoint w /\ Forall (dials_only (endPoint w)) tr.
Proof.
  intros H. destruct H.
  - apply keeps_Disconnect.
  - apply (keeps_gets _ w).
  - apply (keeps_send_on SendCh send with_send msg (fun _ _ => eq_refl) w).
  - apply keeps_connectionManager_body.
  - apply keeps_connectionManager_select.
  - apply keeps_writer_body.
  - apply keeps_writer_select.
  - apply keeps_reader_body.
  - apply keeps_reader_handle.
Qed.

Lemma Run_keeps_endPoint (w w1 : Websocket) (tr : list Event) :
  Run zeroMessage w tr w1 ->
  endPoint w1 = endPoint w /\ Forall (dials_only (endPoint w)) tr.
Proof.
  induction 1 as [w|w w1 w2 tr1 tr2 Hstep Hrun [IHe IHd]].
  - split; [reflexivity|constructor].
  - apply Step_keeps_endPoint in Hstep. destruct Hstep as [He Hd].
    split; [congruence|]. apply Forall_app. split; [exact Hd|].
    rewrite <- He. exact IHd.
Qed.


(** ** The channels of a started session *)

Lemma inv_ret {A : Type} (a : A) : keeps_session_inv (ret a).
Proof. intros w H. exact H. Qed.

Lemma inv_gets {A : Type} (f : Websocket -> A) : keeps_session_inv (gets f).
Proof. intros w H. exact H. Qed.

Lemma inv_emit (e : Event) : keeps_session_inv (emit e).
Proof. intros w H. exact H. Qed.

Lemma inv_panic {A : Type} (p : PanicMsg) : keeps_session_inv (panic p : M A).
Proof. intros w H. exact H. Qed.

Lemma inv_modify (f : Websocket -> Websocket) :
  (forall w, session_inv w -> session_inv (f w)) -> keeps_session_inv (modify f).
Proof. intros Hf w H. apply Hf. exact H. Qed.

Lemma inv_bind {A B : Type} (m : M A) (k : A -> M B) :
  keeps_session_inv m -> (forall a, keeps_session_inv (k a)) ->
  keeps_session_inv (bind m k).
Proof.
  intros Hm Hk w H. unfold bind. specialize (Hm w H).
  destruct (m w) as [a w1 t1|p w1 t1|r w1 t1]; simpl in Hm; [|exact Hm|exact Hm].
  rewrite state_of_prepend. apply Hk. exact Hm.
Qed.

Lemma chan_send_open {A : Type} (c c' : Chan A) (v : A) :
  chan_send c v = inl c' ->
  unbuffered_open c' = unbuffered_open c /\ chan_is_open c' = chan_is_open c.
Proof.
  destruct c as [|cap buf|buf]; simpl; try discriminate.
  destruct ((cap =? 0)%nat || (List.length buf <? cap)%nat); [|discriminate].
  intros H. injection H as <-. split; reflexivity.
Qed.

Lemma chan_recv_open {A : Type} (zero v : A) (c c' : Chan A) :
  chan_recv zero c = Some (v, c') ->
  unbuffered_open c' = unbuffered_open c /\ chan_is_open c' = chan_is_open c.
Proof.
  destruct c as [|cap [|x buf]|[|x buf]]; simpl; try discriminate;
    intros H; injection H as _ <-; split; reflexivity.
Qed.

Lemma inv_flag (f : Websocket -> Websocket) :
  (forall w, started (f w) = started w) ->
  (forall w, channels_open (f w) = channels_open w) ->
  keeps_session_inv (modify f).
Proof.
  intros Hs Hc. apply inv_modify. intros w H. unfold session_inv.
  rewrite Hs, Hc. exact H.
Qed.

Lemma inv_poll_done : keeps_session_inv poll_done.
Proof.
  intros w H. unfold poll_done.
  destruct (chan_recv tt (done w)) as [[v c]|] eqn:Hr; [|exact H].
  apply chan_recv_open in Hr. destruct Hr as [Hu _].
  unfold session_inv, channels_open in *. simpl. rewrite Hu. exact H.
Qed.

Lemma inv_recv_done : keeps_session_inv (recv_from tt done with_done).
Proof.
  intros w H. unfold recv_from.
  destruct (chan_recv tt (done w)) as [[v c]|] eqn:Hr; [|exact H].
  apply chan_recv_open in Hr. destruct Hr as [Hu _].
  unfold session_inv, channels_open in *. simpl. rewrite Hu. exact H.
Qed.

Lemma inv_recv_close : keeps_session_inv (recv_from false close with_close).
Proof.
  intros w H. unfold recv_from.
  destruct (chan_recv false (close w)) as [[v c]|] eqn:Hr; [|exact H].
  apply chan_recv_open in Hr. destruct Hr as [Hu _].
  unfold session_inv, channels_open in *. simpl. rewrite Hu. exact H.
Qed.

Lemma inv_recv_reconnect :
  keeps_session_inv (recv_from false reconnect with_reconnect).
Proof.
  intros w H. unfold recv_from.
  destruct (chan_recv false (reconnect w)) as [[v c]|] eqn:Hr; [|exact H].
  apply chan_recv_open in Hr. destruct Hr as [Hu _].
  unfold session_inv, channels_open in *. simpl. rewrite Hu. exact H.
Qed.

Lemma inv_recv_send : keeps_session_inv (recv_from zeroMessage send with_send).
Proof.
  intros w H. unfold recv_from.
  destruct (chan_recv zeroMessage (send w)) as [[v c]|] eqn:Hr; [|exact H].
  apply chan_recv_open in Hr. destruct Hr as [_ Ho].
  unfold session_inv, channels_open in *. simpl. rewrite Ho. exact H.
Qed.

Lemma inv_send_close : keeps_session_inv (send_on CloseCh close with_close true).
Proof.
  intros w H. unfold send_on.
  destruct (chan_send (close w) true) as [c|[p|r]] eqn:Hs; [|exact H|exact H].
  apply chan_send_open in Hs. destruct Hs as [Hu _].
  unfold session_inv, channels_open in *. simpl. rewrite Hu. exact H.
Qed.

Lemma inv_send_reconnect :
  keeps_session_inv (send_on ReconnectCh reconnect with_reconnect true).
Proof.
  intros w H. unfold send_on.
  destruct (chan_send (reconnect w) true) as [c|[p|r]] eqn:Hs; [|exact H|exact H].
  apply chan_send_open in Hs. destruct Hs as [Hu _].
  unfold session_inv, channels_open in *. simpl. rewrite Hu. exact H.
Qed.

Lemma inv_Send (msg : Message) : keeps_session_inv (Send msg).
Proof.
  intros w H. unfold Send, send_on.
  destruct (chan_send (send w) msg) as [c|[p|r]] eqn:Hs; [|exact H|exact H].
  apply chan_send_open in Hs. destruct Hs as [_ Ho].
  unfold session_inv, channels_open in *. simpl. rewrite Ho. exact H.
Qed.

(** [teardown] closes the channels before it clears the started flag; taken
    as a whole it leaves a session that is not started, unless it started
    from one (whose channels it cannot close again). *)
Lemma inv_teardown : keeps_session_inv teardown.
Proof.
  intros w H. unfold session_inv in *.
  destruct w as [c ep hdr dn cl rc sd n st cg rg]. simpl in H.
  destruct st.
  - specialize (H eq_refl).
    destruct dn as [|[|?] ?|?], cl as [|[|?] ?|?], rc as [|[|?] ?|?], sd as [|? ?|?];
      try discriminate H.
    cbv. discriminate.
  - clear H.
    destruct dn as [|? ?|?], cl as [|? ?|?], rc as [|? ?|?], sd as [|? ?|?];
      cbv; discriminate.
Qed.

#[local] Hint Resolve inv_poll_done inv_recv_done inv_recv_close inv_recv_reconnect
  inv_recv_send inv_send_close inv_send_reconnect inv_Send inv_teardown : inv_db.

Ltac inv_step :=
  repeat first
    [ solve [auto 1 with inv_db nocore]
    | apply inv_bind; [|intros ?]
    | apply inv_ret | apply inv_gets | apply inv_panic | apply inv_emit
    | apply inv_flag; intros ?; reflexivity
    | match goal with
      | |- keeps_session_inv (if ?b then _ else _) => destruct b
      | |- keeps_session_inv (match ?x with _ => _ end) => destruct x
      end ].

Lemma inv_sendReconnect : keeps_session_inv sendReconnect.
Proof. unfold sendReconnect. inv_step. Qed.

Lemma inv_closeConn (written closed : option error) :
  keeps_session_inv (closeConn written closed).
Proof.
  unfold closeConn, connIsSet, setClosing, setConn, on_conn, sleep. inv_step.
Qed.

Lemma inv_dial (dialed : Conn + error) : keeps_session_inv (dial dialed).
Proof. unfold dial, setConn, setReconnecting. inv_step. Qed.

#[local] Hint Resolve inv_sendReconnect inv_closeConn inv_dial : inv_db.

Lemma inv_connectionManager_select (taken : ManagerCase)
      (written closed : option error) :
  keeps_session_inv (connectionManager_select taken written closed).
Proof. unfold connectionManager_select. destruct taken; inv_step. Qed.

Lemma inv_reader_handle (res : Message + error) :
  keeps_session_inv (reader_handle res).
Proof. unfold reader_handle, sleep. inv_step. Qed.

Lemma inv_writer_select (taken : WriterCase) (written : option error) :
  keeps_session_inv (writer_select zeroMessage taken written).
Proof.
  unfold writer_select, writer_send, writeToConn, connIsReady, on_conn, sleep.
  destruct taken; inv_step.
Qed.

#[local] Hint Resolve inv_connectionManager_select inv_reader_handle
  inv_writer_select : inv_db.

Lemma Step_keeps_session_inv (w w1 : Websocket) (tr : list Event) :
  Step zeroMessage w tr w1 -> session_inv w -> session_inv w1.
Proof.
  intros H. destruct H.
  - enough (Hk : keeps_session_inv Disconnect) by exact (Hk w).
    unfold Disconnect, isStarted, connIsSet, sendClose. inv_step.
  - exact (fun H => H).
  - apply inv_Send.
  - enough (Hk : keeps_session_inv
                   (connectionManager_body dialed delay taken written closed))
      by exact (Hk w).
    unfold connectionManager_body, isClosing, connIsSet, setReconnecting, sleep.
    inv_step.
  - apply inv_connectionManager_select.
  - enough (Hk : keeps_session_inv (writer_body zeroMessage taken written))
      by exact (Hk w).
    unfold writer_body, connIsReady, sleep. inv_step.
  - apply inv_writer_select.
  - enough (Hk : keeps_session_inv (reader_body read)) by exact (Hk w).
    unfold reader_body, readFromConn, connIsReady, on_conn, sleep. inv_step.
  - apply inv_reader_handle.
Qed.

Lemma Run_keeps_session_inv (w w1 : Websocket) (tr : list Event) :
  Run zeroMessage w tr w1 -> session_inv w -> session_inv w1.
Proof.
  induction 1 as [w|w w1 w2 tr1 tr2 Hstep Hrun IH]; intros H0.
  - exact H0.
  - apply IH. exact (Step_keeps_session_inv _ _ _ Hstep H0).
Qed.

(** From [Connect] on, and up to the next [Connect], a session that is
    started has its four channels open, the three signal channels
    unbuffered. *)
Lemma started_session_channels_open
      (target : URL) (hdr : option Header) (w w0 w1 : Websocket)
      (tr0 tr : list Event) :
  started w = false ->
  Connect URL_String target hdr w = Ret None w0 tr0 ->
  Run zeroMessage w0 tr w1 ->
  started w1 = true -> channels_open w1 = true.
Proof.
  intros Hs Hc Hrun. rewrite (Connect_not_started target hdr w Hs) in Hc.
  injection Hc as <- _.
  apply (Run_keeps_session_inv _ _ _ Hrun). intros _. reflexivity.
Qed.

End Properties.

(** * The properties at work on the sample session *)

Lemma IsConnected_iff_ready_witness :
  IsConnected sample_connected = Ret true sample_connected []
  /\ IsConnected sample_started = Ret false sample_started [].
Proof.
  split.
  - destruct (IsConnected_iff_ready sample_connected)
      as [[b [Hrun Hiff]] _].
    rewrite Hrun. f_equal. apply Hiff. repeat split. discriminate.
  - destruct (IsConnected_iff_ready sample_started)
      as [[b [Hrun Hiff]] _].
    rewrite Hrun. f_equal. destruct b; [|reflexivity].
    destruct (proj1 Hiff eq_refl) as (_ & _ & _ & Hc). now elim Hc.
Defined.

(** C2 does not hold as stated: when the close frame cannot be sent,
    [closeConn] does not wait the 250 ms. *)
Lemma closeConn_without_grace_period :
  conn sample_connected = Some 7%nat
  /\ trace_of (closeConn (Some (transportError "broken pipe")) None sample_connected)
     = [EvPrintln "closeConn"; EvSetFlag Closing true;
        EvWriteMessage 7%nat 8 [3; 232]; EvConnClose 7%nat;
        EvSetConn None; EvOnConnClose; EvSetFlag Closing false]
  /\ filter is_EvSleep
            (trace_of (closeConn (Some (transportError "broken pipe")) None
                                 sample_connected))
     = [].
Proof. repeat split. Qed.

Lemma closeConn_steps_witness :
  conn sample_connected = Some 7%nat
  /\ closeConn None (Some (transportError "reset")) sample_connected
     = Ret tt sample_started
           [EvPrintln "closeConn"; EvSetFlag Closing true;
            EvWriteMessage 7%nat 8 [3; 232]; EvSleep (250 * Millisecond);
            EvConnClose 7%nat; EvOnConnError (transportError "reset");
            EvSetConn None; EvOnConnClose; EvSetFlag Closing false].
Proof.
  split; [reflexivity|].
  exact (proj1 (closeConn_steps sample_connected 7%nat None
                                (Some (transportError "reset")) eq_refl)).
Defined.

Lemma Connect_guard_witness :
  started sample_connected = true
  /\ Connect sample_URL_String sample_URL None sample_connected
     = Ret (Some (errorString "connect was already called")) sample_connected []
  /\ started (@NewWebsocket string unit) = false
  /\ Connect sample_URL_String sample_URL None NewWebsocket
     = Ret None sample_started
           [EvSetFlag Reconnecting false; EvSetFlag Closing false;
            EvGo ConnectionManager; EvGo WriterLoop; EvGo ReaderLoop;
            EvSetFlag Started true].
Proof.
  split; [reflexivity|split; [|split; [reflexivity|]]].
  - exact (proj1 (proj2 (Connect_guard sample_URL_String sample_URL None
                                       sample_connected)) eq_refl).
  - exact (proj1 (proj2 (proj2 (Connect_guard sample_URL_String sample_URL None
                                              NewWebsocket))) eq_refl).
Defined.



Lemma reader_read_error_witness :
  reader_handle (inr (CloseError 1000 "bye")) sample_connected
  = Ret Continue sample_connected [EvSleep busyWait]
  /\ reader_handle (inr (CloseError 1001 "going away")) sample_connected
     = Ret Continue
           (with_reconnect (ChOpen 0 [true]) (with_reconnecting true sample_connected))
           [EvOnReadError (CloseError 1001 "going away");
            EvSetFlag Reconnecting true; EvChanSend ReconnectCh; EvSleep busyWait].
Proof.
  split.
  - apply (proj1 (proj2 (reader_read_error (CloseError 1000 "bye") sample_connected))).
    exists "bye"%string. reflexivity.
  - apply (proj1 (proj2 (proj2 (proj2 (reader_read_error
                                         (CloseError 1001 "going away")
                                         sample_connected)))) []);
      try reflexivity.
    intros [text H]. discriminate H.
Defined.


Lemma sample_torn_down_TornDown : TornDown sample_torn_down.
Proof.
  apply (TornDown_Disconnect sample_started sample_torn_down teardown_events);
    reflexivity.
Qed.



Lemma writer_drops_message_when_not_ready_witness :
  chan_recv EmptyString (send (with_reconnecting true sample_queued))
  = Some ("m1"%string, ChOpen messageQueueLength ["m2"%string])
  /\ ready (with_reconnecting true sample_queued) = false
  /\ writer_select EmptyString WriterOnSend None (with_reconnecting true sample_queued)
     = Ret Continue
           (with_send (ChOpen messageQueueLength ["m2"%string])
                      (with_reconnecting true sample_queued))
           [EvSleep busyWait].
Proof.
  split; [reflexivity|split; [reflexivity|]].
  exact (proj1 (writer_drops_message_when_not_ready
                  EmptyString (with_reconnecting true sample_queued) "m1"%string
                  (ChOpen messageQueueLength ["m2"%string]) None eq_refl eq_refl)).
Defined.

(** * Further properties of the code *)

(** ** The backoff policy outside its table *)

Lemma defaultReconnectAfterFunc_table (tries : Z) :
  0 <= tries < 9 ->
  defaultReconnectAfterFunc tries = nth (Z.to_nat tries) schedule 0 * Millisecond.
Proof.
  intros H.
  assert (Hc : tries = 0 \/ tries = 1 \/ tries = 2 \/ tries = 3 \/ tries = 4
               \/ tries = 5 \/ tries = 6 \/ tries = 7 \/ tries = 8) by lia.
  repeat (destruct Hc as [->|Hc]; [reflexivity|]). subst. reflexivity.
Qed.

Lemma schedule_bounds (n : nat) :
  (n < 9)%nat -> 10 <= nth n schedule 0 <= 2000.
Proof.
  intros H. do 9 (destruct n as [|n]; [simpl; lia|]). lia.
Qed.

Lemma schedule_sorted (n m : nat) :
  (n <= m < 9)%nat -> nth n schedule 0 <= nth m schedule 0.
Proof.
  intros H.
  do 9 (destruct n as [|n];
        [do 9 (destruct m as [|m]; [simpl; lia|]); lia|]).
  lia.
Qed.

(** The default backoff never waits less than 10 ms nor more than 5000 ms,
    never shortens the wait as the attempts go up, and answers a negative
    attempt count, which is outside its table, with the 5000 ms ceiling. *)
Theorem defaultReconnectAfterFunc_bounded_monotone :
  (forall tries : Z,
      10 * Millisecond <= defaultReconnectAfterFunc tries <= 5000 * Millisecond)
  /\ (forall a b : Z,
         0 <= a <= b ->
         defaultReconnectAfterFunc a <= defaultReconnectAfterFunc b)
  /\ (forall tries : Z,
         tries < 0 -> defaultReconnectAfterFunc tries = 5000 * Millisecond).
Proof.
  assert (Hms : Millisecond = 1000000) by reflexivity.
  split; [|split].
  - intros tries. destruct (Z_lt_le_dec tries 0) as [Hn|Hp].
    + rewrite defaultReconnectAfterFunc_ceiling by (now left). lia.
    + destruct (Z_lt_le_dec tries 9) as [Hl|Hg].
      * rewrite defaultReconnectAfterFunc_table by lia.
        pose proof (schedule_bounds (Z.to_nat tries) ltac:(lia)). nia.
      * rewrite defaultReconnectAfterFunc_ceiling by (now right). lia.
  - intros a b [Ha Hab]. destruct (Z_lt_le_dec b 9) as [Hl|Hg].
    + rewrite !defaultReconnectAfterFunc_table by lia.
      pose proof (schedule_sorted (Z.to_nat a) (Z.to_nat b) ltac:(lia)). nia.
    + rewrite (defaultReconnectAfterFunc_ceiling b) by (now right).
      destruct (Z_lt_le_dec a 9) as [Hl|Hg'].
      * rewrite defaultReconnectAfterFunc_table by lia.
        pose proof (schedule_bounds (Z.to_nat a) ltac:(lia)). nia.
      * rewrite defaultReconnectAfterFunc_ceiling by (now right). lia.
  - intros tries H. apply defaultReconnectAfterFunc_ceiling. now left.
Qed.

Lemma defaultReconnectAfterFunc_bounded_monotone_witness :
  (0 <= 3 <= 11 /\ defaultReconnectAfterFunc 3 <= defaultReconnectAfterFunc 11)
  /\ (-1 < 0 /\ defaultReconnectAfterFunc (-1) = 5000 * Millisecond).
Proof.
  split; (split; [lia|]).
  - apply (proj1 (proj2 defaultReconnectAfterFunc_bounded_monotone) 3 11). lia.
  - apply (proj2 (proj2 defaultReconnectAfterFunc_bounded_monotone) (-1)). lia.
Defined.

Section Further.

Context {Message Header URLRest : Type}.
Variable URL_String : @URL URLRest -> string.
Variable zeroMessage : Message.

Local Abbreviation Websocket := (@Websocket Message Header).
Local Abbreviation Event := (@Event Message Header).
Local Abbreviation Outcome := (@Outcome Message Header).
Local Abbreviation M := (@M Message Header).
Local Abbreviation NewWebsocket := (@NewWebsocket Message Header).

Ltac steps :=
  repeat (rewrite ?bind_assoc, ?bind_gets, ?bind_ret, ?bind_modify, ?bind_emit,
            ?prepend_prepend, ?prepend_nil, ?trace_of_prepend, ?state_of_prepend;
          cbn [app negb andb orb]).

(** ** One round of the connection manager, case by case *)

Lemma connectionManager_body_done
      (dialed : Conn + error) (delay : Duration) (taken : ManagerCase)
      (written closed : option error) (w : Websocket) (v : unit) (c : Chan unit) :
  chan_recv tt (done w) = Some (v, c) ->
  connectionManager_body dialed delay taken written closed w
  = Ret Return (with_done c w) [].
Proof.
  intros Hd. unfold connectionManager_body. unfold bind at 1.
  rewrite poll_done_run, Hd. reflexivity.
Qed.

Lemma connectionManager_body_not_done
      (dialed : Conn + error) (delay : Duration) (taken : ManagerCase)
      (written closed : option error) (w : Websocket) :
  chan_recv tt (done w) = None ->
  connectionManager_body dialed delay taken written closed w
  = if negb (closing w) && negb (conn_not_nil w)
    then match dialed with
         | inr e =>
             Ret Continue
                 (with_connectionTries (wrap64 (connectionTries w + 1))
                                       (with_reconnecting true w))
                 [EvDial (endPoint w) (requestHeader w); EvOnConnError e;
                  EvSetFlag Reconnecting true;
                  EvReconnectAfter (connectionTries w); EvSleep delay]
         | inl c =>
             prepend [EvDial (endPoint w) (requestHeader w); EvSetConn (Some c);
                      EvSetFlag Reconnecting false; EvOnConnOpen]
                     (connectionManager_select taken written closed
                        (with_reconnecting false (with_conn (Some c) w)))
         end
    else connectionManager_select taken written closed w.
Proof.
  intros Hd. unfold connectionManager_body. unfold bind at 1.
  rewrite poll_done_run, Hd. steps. unfold isClosing, connIsSet. steps.
  destruct (closing w); steps.
  - reflexivity.
  - destruct (conn_not_nil w); steps; [reflexivity|].
    unfold bind at 1. rewrite dial_run.
    destruct dialed as [c|e]; cbn [prepend].
    + steps. reflexivity.
    + unfold setReconnecting, sleep. steps. reflexivity.
Qed.

(** ** Teardown happens once *)

Lemma teardown_done_closed (w : Websocket) :
  chan_is_closed (done w) = true ->
  teardown w = Panics CloseOfClosedChannel w [].
Proof.
  intros H. unfold teardown. unfold bind at 1. unfold close_chan.
  destruct (done w); try discriminate H. reflexivity.
Qed.

Lemma TornDown_done_closed (w : Websocket) :
  TornDown w -> chan_is_closed (done w) = true.
Proof.
  intros H. apply TornDown_state in H. destruct H as (_ & _ & _ & _ & Hc).
  unfold channels_closed in Hc.
  destruct (chan_is_closed (done w)); [reflexivity|discriminate Hc].
Qed.

(** [teardown] cannot be run twice, nor before [Connect].  On a session that
    [teardown] has left it panics on the first [close], having changed
    nothing; so does the close case of the connection manager's [select] when
    it is taken on such a session (a receive on the closed channel goes
    through); and on a [Websocket] that was never started [teardown] panics
    on the nil channel. *)
Theorem teardown_only_once (w : Websocket) :
  TornDown w ->
  teardown w = Panics CloseOfClosedChannel w []
  /\ (forall written closed : option error,
         exists (w' : Websocket) (tr : list Event),
           connectionManager_select OnClose written closed w
           = Panics CloseOfClosedChannel w' tr)
  /\ teardown NewWebsocket = Panics CloseOfNilChannel NewWebsocket [].
Proof.
  intros H. pose proof (TornDown_done_closed w H) as Hd.
  pose proof (TornDown_state w H) as (Hs & Hcg & Hrg & Hconn & Hch).
  split; [apply teardown_done_closed; exact Hd|split; [|reflexivity]].
  intros written closed. unfold connectionManager_select.
  unfold bind at 1. unfold recv_from.
  assert (Hcl : chan_is_closed (close w) = true).
  { unfold channels_closed in Hch.
    destruct (chan_is_closed (done w)), (chan_is_closed (close w));
      try discriminate Hch; reflexivity. }
  destruct (close w) as [|cap buf|buf] eqn:Hclose; try discriminate Hcl.
  assert (Hgo : forall w1 : Websocket,
             conn w1 = None -> chan_is_closed (done w1) = true ->
             exists w' tr,
               bind (closeConn written closed)
                    (fun _ => bind teardown (fun _ => ret Continue)) w1
               = Panics CloseOfClosedChannel w' tr).
  { intros w1 Hc1 Hd1. unfold bind at 1.
    rewrite (closeConn_no_conn written closed w1 Hc1). cbn [prepend].
    unfold bind at 1. rewrite (teardown_done_closed w1 Hd1). cbn [prepend]. eauto. }
  destruct buf as [|v buf]; cbn [chan_recv]; rewrite prepend_nil; apply Hgo;
    assumption.
Qed.

(** ** The loops end when [done] is closed *)

Lemma done_closed_recv (w : Websocket) :
  chan_is_closed (done w) = true ->
  exists (v : unit) (c : Chan unit), chan_recv tt (done w) = Some (v, c).
Proof.
  destruct (done w) as [|cap buf|[|v buf]]; simpl; try discriminate; eauto.
Qed.

(** After [teardown] each of the three loops ends at the top of its next
    round: the goroutine returns without a dial, a read, a write, a sleep or
    a call of the handler, whatever the collaborators would have answered. *)
Theorem loops_end_after_teardown (w : Websocket) :
  TornDown w ->
  (forall (r : ManagerRound) (rest : list ManagerRound),
      exists w', connectionManager (r :: rest) w = Ret Return w' [])
  /\ (forall (r : WriterCase * option error) (rest : list (WriterCase * option error)),
         exists w', writer zeroMessage (r :: rest) w = Ret Return w' [])
  /\ (forall (r : Message + error) (rest : list (Message + error)),
         exists w', reader (r :: rest) w = Ret Return w' []).
Proof.
  intros H. apply TornDown_done_closed in H.
  destruct (done_closed_recv w H) as (v & c & Hd).
  split; [|split].
  - intros r rest. exists (with_done c w). cbn [connectionManager].
    unfold bind. rewrite (connectionManager_body_done _ _ _ _ _ w v c Hd).
    reflexivity.
  - intros [taken written] rest. exists (with_done c w). cbn [writer].
    unfold bind at 1. unfold writer_body. unfold bind at 1.
    rewrite poll_done_run, Hd. reflexivity.
  - intros r rest. exists (with_done c w). cbn [reader].
    unfold bind. rewrite (reader_body_done r w v c Hd). reflexivity.
Qed.

(** ** What a computation leaves alone *)

Section Leaves.

Context {F : Type}.
Variable get : Websocket -> F.
Variable quiet : Event -> Prop.

Lemma leaves_ret {A : Type} (a : A) : leaves get quiet (ret a).
Proof. intros w. split; [reflexivity|constructor]. Qed.

Lemma leaves_gets {A : Type} (f : Websocket -> A) : leaves get quiet (gets f).
Proof. intros w. split; [reflexivity|constructor]. Qed.

Lemma leaves_panic {A : Type} (p : PanicMsg) : leaves get quiet (panic p : M A).
Proof. intros w. split; [reflexivity|constructor]. Qed.

Lemma leaves_modify (f : Websocket -> Websocket) :
  (forall w, get (f w) = get w) -> leaves get quiet (modify f).
Proof. intros H w. split; [apply H|constructor]. Qed.

Lemma leaves_emit (e : Event) : quiet e -> leaves get quiet (emit e).
Proof. intros H w. split; [reflexivity|]. repeat constructor. exact H. Qed.

Lemma leaves_bind {A B : Type} (m : M A) (k : A -> M B) :
  leaves get quiet m -> (forall a, leaves get quiet (k a)) ->
  leaves get quiet (bind m k).
Proof.
  intros Hm Hk w. unfold bind. specialize (Hm w).
  destruct (m w) as [a w1 t1|p w1 t1|r w1 t1]; simpl in Hm; [|exact Hm|exact Hm].
  destruct Hm as [He Hd]. specialize (Hk a w1).
  rewrite state_of_prepend, trace_of_prepend, <- He.
  split; [apply Hk|]. apply Forall_app. split; [exact Hd|apply Hk].
Qed.

Lemma leaves_send_on {A : Type} (name : ChanName) (gt : Websocket -> Chan A)
      (set : Chan A -> Websocket -> Websocket) (v : A) :
  (forall c w, get (set c w) = get w) -> quiet (EvChanSend name) ->
  leaves get quiet (send_on name gt set v).
Proof.
  intros H Hq w. unfold send_on.
  destruct (chan_send (gt w) v) as [c|[p|r]]; simpl;
    (split; [auto|repeat constructor; exact Hq]).
Qed.

Lemma leaves_close_chan {A : Type} (name : ChanName) (gt : Websocket -> Chan A)
      (set : Chan A -> Websocket -> Websocket) :
  (forall c w, get (set c w) = get w) -> quiet (EvChanClose name) ->
  leaves get quiet (close_chan name gt set).
Proof.
  intros H Hq w. unfold close_chan.
  destruct (chan_close (gt w)) as [c|p]; simpl;
    (split; [auto|repeat constructor; exact Hq]).
Qed.

Lemma leaves_recv_from {A : Type} (zero : A) (gt : Websocket -> Chan A)
      (set : Chan A -> Websocket -> Websocket) :
  (forall c w, get (set c w) = get w) ->
  leaves get quiet (recv_from zero gt set).
Proof.
  intros H w. unfold recv_from.
  destruct (chan_recv zero (gt w)) as [[v c]|]; simpl;
    (split; [auto|repeat constructor]).
Qed.

Lemma leaves_poll_done :
  (forall c w, get (with_done c w) = get w) -> leaves get quiet poll_done.
Proof.
  intros H w. unfold poll_done.
  destruct (chan_recv tt (done w)) as [[v c]|]; simpl;
    (split; [auto|repeat constructor]).
Qed.

Lemma leaves_on_conn {A : Type} (ev : Conn -> Event) (res : A) :
  (forall c, quiet (ev c)) -> leaves get quiet (on_conn ev res).
Proof.
  intros Hq w. unfold on_conn. rewrite bind_gets.
  destruct (conn w) as [c|]; [|split; [reflexivity|constructor]].
  cbv [bind emit ret prepend app state_of trace_of]. split; [reflexivity|].
  repeat constructor. apply Hq.
Qed.

End Leaves.

(** Decides [leaves get quiet m] for a computation [m] built from the
    methods that do not write what [get] reads. *)
Ltac leaves_side :=
  solve [ intros; reflexivity | intros; exact I | intros; assumption
        | intros; cbv; auto ].

Ltac leaves_run :=
  repeat first
    [ solve [auto 1 with leaves_db nocore]
    | apply leaves_bind; [|intros ?]
    | apply leaves_ret | apply leaves_gets | apply leaves_panic
    | apply leaves_modify; leaves_side
    | apply leaves_emit; leaves_side
    | apply leaves_send_on; leaves_side
    | apply leaves_close_chan; leaves_side
    | apply leaves_recv_from; leaves_side
    | apply leaves_poll_done; leaves_side
    | apply leaves_on_conn; leaves_side
    | match goal with
      | |- leaves _ _ (if ?b then _ else _) => destruct b
      | |- leaves _ _ (match ?x with _ => _ end) => destruct x
      end ].

Ltac open_methods :=
  unfold Disconnect, IsConnected, Send, teardown, closeConn, dial,
    writeToConn, readFromConn, connectionManager_select,
    writer_send, writer_select, writer_body, reader_handle, reader_body,
    setStarted, isStarted, setClosing, isClosing, sendClose, setReconnecting,
    isReconnecting, sendReconnect, setConn, connIsSet, connIsReady, sleep, go.

(** ** The attempt counter *)

Local Abbreviation failed_dials := (@failed_dials Message Header).
Local Abbreviation leaves_tries :=
  (@leaves Message Header _ Z (@connectionTries Message Header)
           (@no_ReconnectAfter Message Header)).

Lemma tries_teardown : leaves_tries teardown.
Proof. open_methods. leaves_run. Qed.

Lemma tries_closeConn (written closed : option error) :
  leaves_tries (closeConn written closed).
Proof. open_methods. leaves_run. Qed.

Lemma tries_sendReconnect : leaves_tries sendReconnect.
Proof. open_methods. leaves_run. Qed.

#[local] Hint Resolve tries_teardown tries_closeConn tries_sendReconnect : leaves_db.

Lemma tries_connectionManager_select (taken : ManagerCase)
      (written closed : option error) :
  leaves_tries (connectionManager_select taken written closed).
Proof. unfold connectionManager_select. destruct taken; leaves_run. Qed.

Lemma tries_reader_handle (res : Message + error) : leaves_tries (reader_handle res).
Proof. open_methods. leaves_run. Qed.

Lemma tries_writer_select (taken : WriterCase) (written : option error) :
  leaves_tries (writer_select zeroMessage taken written).
Proof. open_methods. destruct taken; leaves_run. Qed.

#[local] Hint Resolve tries_connectionManager_select tries_reader_handle
  tries_writer_select : leaves_db.

Lemma tries_Disconnect : leaves_tries Disconnect.
Proof. open_methods. leaves_run. Qed.

Lemma tries_Send (msg : Message) : leaves_tries (Send msg).
Proof. open_methods. leaves_run. Qed.

Lemma tries_writer_body (taken : WriterCase) (written : option error) :
  leaves_tries (writer_body zeroMessage taken written).
Proof. unfold writer_body, connIsReady, sleep. leaves_run. Qed.

Lemma tries_reader_body (read : Message + error) : leaves_tries (reader_body read).
Proof. open_methods. leaves_run. Qed.

Lemma failed_dials_quiet (tr : list Event) :
  Forall no_ReconnectAfter tr -> failed_dials tr = 0.
Proof.
  unfold failed_dials. induction 1 as [|e tr He _ IH]; [reflexivity|].
  simpl. rewrite He. exact IH.
Qed.

Lemma failed_dials_app (t1 t2 : list Event) :
  failed_dials (t1 ++ t2) = failed_dials t1 + failed_dials t2.
Proof.
  unfold failed_dials. rewrite filter_app, length_app. lia.
Qed.

Lemma wrap64_range (z : Z) : int64_range (wrap64 z).
Proof.
  unfold int64_range, wrap64.
  pose proof (Z.mod_pos_bound (z + 2 ^ 63) (2 ^ 64) ltac:(lia)). lia.
Qed.

Lemma wrap64_unique (x y : Z) :
  int64_range y -> (y - x) mod 2 ^ 64 = 0 -> y = wrap64 x.
Proof.
  unfold int64_range, wrap64. intros Hr Hm.
  apply Z.mod_divide in Hm; [|lia]. destruct Hm as [k Hk].
  replace (x + 2 ^ 63) with ((y + 2 ^ 63) + (- k) * 2 ^ 64) by lia.
  rewrite Z.mod_add by lia. rewrite Z.mod_small by lia. lia.
Qed.

Lemma wrap64_congruent (z : Z) : (wrap64 z - z) mod 2 ^ 64 = 0.
Proof.
  unfold wrap64.
  rewrite (Z.mod_eq (z + 2 ^ 63) (2 ^ 64)) by lia.
  replace (z + 2 ^ 63 - 2 ^ 64 * ((z + 2 ^ 63) / 2 ^ 64) - 2 ^ 63 - z)
    with ((- ((z + 2 ^ 63) / 2 ^ 64)) * 2 ^ 64) by lia.
  apply Z.mod_mul. lia.
Qed.

Lemma Step_counts_failed_dials (w w1 : Websocket) (tr : list Event) :
  Step zeroMessage w tr w1 ->
  (connectionTries w1 - connectionTries w - failed_dials tr) mod 2 ^ 64 = 0
  /\ (int64_range (connectionTries w) -> int64_range (connectionTries w1)).
Proof.
  assert (Hq : forall (A : Type) (m : M A) (w0 : Websocket),
             leaves_tries m ->
             (connectionTries (state_of (m w0)) - connectionTries w0
              - failed_dials (trace_of (m w0))) mod 2 ^ 64 = 0
             /\ (int64_range (connectionTries w0) ->
                 int64_range (connectionTries (state_of (m w0))))).
  { intros A m w0 Hm. destruct (Hm w0) as [He Hf].
    rewrite He, (failed_dials_quiet _ Hf).
    replace (connectionTries w0 - connectionTries w0 - 0) with 0 by lia.
    split; [reflexivity|auto]. }
  intros H. destruct H.
  - apply Hq, tries_Disconnect.
  - apply Hq. apply leaves_gets.
  - apply Hq, tries_Send.
  - destruct (chan_recv tt (done w)) as [[v c]|] eqn:Hd.
    + rewrite (connectionManager_body_done _ _ _ _ _ w v c Hd). simpl.
      replace (connectionTries w - connectionTries w - failed_dials []) with 0
        by (unfold failed_dials; simpl; lia).
      split; [reflexivity|auto].
    + rewrite (connectionManager_body_not_done _ _ _ _ _ w Hd).
      destruct (negb (closing w) && negb (conn_not_nil w));
        [|apply Hq, tries_connectionManager_select].
      destruct dialed as [c|e].
      * rewrite state_of_prepend, trace_of_prepend, failed_dials_app.
        destruct (Hq _ (connectionManager_select taken written closed)
                     (with_reconnecting false (with_conn (Some c) w))
                     (tries_connectionManager_select taken written closed))
          as [Hm Hr].
        cbn [connectionTries with_reconnecting with_conn] in Hm, Hr.
        split; [|exact Hr].
        replace (failed_dials
                   [EvDial (endPoint w) (requestHeader w); EvSetConn (Some c);
                    EvSetFlag Reconnecting false; EvOnConnOpen]) with 0
          by reflexivity.
        rewrite <- Hm. f_equal. lia.
      * cbn [state_of trace_of connectionTries with_connectionTries].
        replace (failed_dials
                   [EvDial (endPoint w) (requestHeader w); EvOnConnError e;
                    EvSetFlag Reconnecting true;
                    EvReconnectAfter (connectionTries w); EvSleep delay]) with 1
          by reflexivity.
        split; [|intros _; apply wrap64_range].
        pose proof (wrap64_congruent (connectionTries w + 1)) as Hc.
        rewrite <- Hc. f_equal. lia.
  - apply Hq, tries_connectionManager_select.
  - apply Hq, tries_writer_body.
  - apply Hq, tries_writer_select.
  - apply Hq, tries_reader_body.
  - apply Hq, tries_reader_handle.
Qed.

(** The attempt counter counts the failed dials.  Along any run of a session
    the counter moves only when a dial fails, by one each time (as an
    [int64], so with wrap-around), and a dial that succeeds does not reset
    it: at every point it is the count it had at the start plus the number
    of times the handler has been asked for a delay since. *)
Theorem connectionTries_counts_failed_dials
        (w w1 : Websocket) (tr : list Event) :
  Run zeroMessage w tr w1 ->
  int64_range (connectionTries w) ->
  connectionTries w1 = wrap64 (connectionTries w + failed_dials tr).
Proof.
  intros Hrun Hr. apply wrap64_unique.
  - induction Hrun as [w|w w1 w2 tr1 tr2 Hstep Hrun IH]; [exact Hr|].
    apply IH. exact (proj2 (Step_counts_failed_dials _ _ _ Hstep) Hr).
  - clear Hr. induction Hrun as [w|w w1 w2 tr1 tr2 Hstep Hrun IH].
    + replace (connectionTries w - (connectionTries w + failed_dials []))
        with 0 by (unfold failed_dials; simpl; lia).
      reflexivity.
    + destruct (Step_counts_failed_dials _ _ _ Hstep) as [Hm _].
      rewrite failed_dials_app.
      apply Z.mod_divide in Hm; [|lia]. apply Z.mod_divide in IH; [|lia].
      apply Z.mod_divide; [lia|].
      destruct Hm as [k1 Hk1], IH as [k2 Hk2]. exists (k1 + k2). lia.
Qed.

(** ** The endpoint is used in order *)

Local Abbreviation leaves_conn :=
  (@leaves Message Header _ (option Conn) (@conn Message Header)
           (@endpoint_neutral Message Header)).
Local Abbreviation conforms_everywhere :=
  (conforms_everywhere (Message:=Message) (Header:=Header)).
Local Abbreviation endpoint_run := (@endpoint_run Message Header).

Lemma endpoint_run_app (live : option Conn) (t1 t2 : list Event) :
  endpoint_run live (t1 ++ t2)
  = match endpoint_run live t1 with
    | Some live' => endpoint_run live' t2
    | None => None
    end.
Proof.
  revert live. induction t1 as [|e t1 IH]; intros live; [reflexivity|].
  simpl. destruct (endpoint_step live e); [apply IH|reflexivity].
Qed.

Lemma endpoint_run_neutral (live : option Conn) (tr : list Event) :
  Forall endpoint_neutral tr -> endpoint_run live tr = Some live.
Proof.
  induction 1 as [|e tr He _ IH]; [reflexivity|].
  simpl. rewrite (He live). exact IH.
Qed.

Lemma conforms_of_leaves {A : Type} (m : M A) :
  leaves_conn m -> conforms_everywhere m.
Proof.
  intros H w. destruct (H w) as [He Hf]. unfold conforms.
  rewrite He. apply endpoint_run_neutral. exact Hf.
Qed.

Lemma conforms_prepend {A : Type} (tr : list Event) (o : Outcome A)
      (live live' : option Conn) :
  endpoint_run live tr = Some live' ->
  endpoint_run live' (trace_of o) = Some (conn (state_of o)) ->
  endpoint_run live (trace_of (prepend tr o)) = Some (conn (state_of (prepend tr o))).
Proof.
  intros H1 H2. rewrite trace_of_prepend, state_of_prepend, endpoint_run_app, H1.
  exact H2.
Qed.

Lemma conforms_bind {A B : Type} (m : M A) (k : A -> M B) :
  conforms_everywhere m -> (forall a, conforms_everywhere (k a)) ->
  conforms_everywhere (bind m k).
Proof.
  intros Hm Hk w. unfold conforms, bind. specialize (Hm w). unfold conforms in Hm.
  destruct (m w) as [a w1 t1|p w1 t1|r w1 t1]; simpl in Hm; [|exact Hm|exact Hm].
  apply (conforms_prepend t1 (k a w1) (conn w) (conn w1) Hm). apply Hk.
Qed.

Lemma conforms_on_conn {A : Type} (ev : Conn -> Event) (res : A) :
  (forall c, endpoint_step (Some c) (ev c) = Some (Some c)) ->
  conforms_everywhere (on_conn ev res).
Proof.
  intros H w. unfold conforms, on_conn. rewrite bind_gets.
  destruct (conn w) as [c|] eqn:Hc; cbv [bind emit ret prepend app state_of trace_of panic].
  - simpl. rewrite H, Hc. reflexivity.
  - simpl. rewrite Hc. reflexivity.
Qed.

Lemma conforms_closeConn (written closed : option error) :
  conforms_everywhere (closeConn written closed).
Proof.
  intros w. unfold conforms. destruct (conn w) as [c|] eqn:Hc.
  - rewrite (closeConn_run w c written closed Hc).
    cbn [trace_of state_of conn with_closing with_conn].
    destruct written, closed; simpl; rewrite !Nat.eqb_refl; reflexivity.
  - rewrite (closeConn_no_conn written closed w Hc). simpl. rewrite Hc. reflexivity.
Qed.

Lemma conn_teardown : leaves_conn teardown.
Proof. open_methods. leaves_run. Qed.

Lemma conn_sendReconnect : leaves_conn sendReconnect.
Proof. open_methods. leaves_run. Qed.

Lemma conn_Disconnect : leaves_conn Disconnect.
Proof. open_methods. leaves_run. Qed.

Lemma conn_Send (msg : Message) : leaves_conn (Send msg).
Proof. open_methods. leaves_run. Qed.

Lemma conn_reader_handle (res : Message + error) : leaves_conn (reader_handle res).
Proof. open_methods. leaves_run. Qed.

Ltac conforms_run :=
  repeat first
    [ solve [auto 1 with conforms_db nocore]
    | apply conforms_on_conn; intros ?; simpl; rewrite Nat.eqb_refl; reflexivity
    | apply conforms_bind; [|intros ?]
    | apply conforms_of_leaves; solve [leaves_run]
    | match goal with
      | |- conforms_everywhere (if ?b then _ else _) => destruct b
      | |- conforms_everywhere (match ?x with _ => _ end) => destruct x
      end ].

Lemma conforms_teardown : conforms_everywhere teardown.
Proof. apply conforms_of_leaves, conn_teardown. Qed.

Lemma conforms_sendReconnect : conforms_everywhere sendReconnect.
Proof. apply conforms_of_leaves, conn_sendReconnect. Qed.

Lemma conforms_reader_handle (res : Message + error) :
  conforms_everywhere (reader_handle res).
Proof. apply conforms_of_leaves, conn_reader_handle. Qed.

#[local] Hint Resolve conforms_closeConn conforms_teardown conforms_sendReconnect
  conforms_reader_handle : conforms_db.

Lemma conforms_connectionManager_select (taken : ManagerCase)
      (written closed : option error) :
  conforms_everywhere (connectionManager_select taken written closed).
Proof. unfold connectionManager_select. destruct taken; conforms_run. Qed.

Lemma conforms_writer_select (taken : WriterCase) (written : option error) :
  conforms_everywhere (writer_select zeroMessage taken written).
Proof.
  unfold writer_select, writer_send, writeToConn, connIsReady, sleep.
  destruct taken; conforms_run.
Qed.

#[local] Hint Resolve conforms_connectionManager_select conforms_writer_select
  : conforms_db.

Lemma conforms_writer_body (taken : WriterCase) (written : option error) :
  conforms_everywhere (writer_body zeroMessage taken written).
Proof. unfold writer_body, connIsReady, sleep. conforms_run. Qed.

Lemma conforms_reader_body (read : Message + error) :
  conforms_everywhere (reader_body read).
Proof. unfold reader_body, readFromConn, connIsReady, sleep. conforms_run. Qed.

Lemma conforms_connectionManager_body
      (dialed : Conn + error) (delay : Duration) (taken : ManagerCase)
      (written closed : option error) :
  conforms_everywhere (connectionManager_body dialed delay taken written closed).
Proof.
  intros w. unfold conforms.
  destruct (chan_recv tt (done w)) as [[v c]|] eqn:Hd.
  - rewrite (connectionManager_body_done _ _ _ _ _ w v c Hd). reflexivity.
  - rewrite (connectionManager_body_not_done _ _ _ _ _ w Hd).
    destruct (closing w); cbn [negb andb];
      [apply conforms_connectionManager_select|].
    unfold conn_not_nil. destruct (conn w) as [c0|] eqn:Hc; cbn [negb].
    + rewrite <- Hc. apply conforms_connectionManager_select.
    + destruct dialed as [c|e].
      * apply (conforms_prepend _ _ None (Some c)); [reflexivity|].
        apply (conforms_connectionManager_select taken written closed
                 (with_reconnecting false (with_conn (Some c) w))).
      * simpl. rewrite Hc. reflexivity.
Qed.

Lemma Step_conforms (w w1 : Websocket) (tr : list Event) :
  Step zeroMessage w tr w1 -> endpoint_run (conn w) tr = Some (conn w1).
Proof.
  intros H. destruct H.
  - apply (conforms_of_leaves _ conn_Disconnect).
  - reflexivity.
  - apply (conforms_of_leaves _ (conn_Send msg)).
  - apply conforms_connectionManager_body.
  - apply conforms_connectionManager_select.
  - apply conforms_writer_body.
  - apply conforms_writer_select.
  - apply conforms_reader_body.
  - apply conforms_reader_handle.
Qed.

(** At most one endpoint at a time, and no use of a closed one.  Along any
    run made of whole calls and whole rounds, whatever the collaborators
    answer: a handle is taken from the dialer only while the session holds
    none; every write, read and close is made on the handle the session
    holds, before that handle is closed; and the handle field at the end is
    the handle that is live. *)
Theorem endpoint_used_in_order (w w1 : Websocket) (tr : list Event) :
  Run zeroMessage w tr w1 ->
  endpoint_run (conn w) tr = Some (conn w1)
  /\ (forall (t1 t2 : list Event) (c : Conn),
         tr = t1 ++ EvSetConn (Some c) :: t2 ->
         endpoint_run (conn w) t1 = Some None)
  /\ (forall (t1 t2 : list Event) (c : Conn) (msg : Message),
         tr = t1 ++ EvWriteJSON c msg :: t2 ->
         endpoint_run (conn w) t1 = Some (Some c))
  /\ (forall (t1 t2 : list Event) (c : Conn),
         tr = t1 ++ EvReadJSON c :: t2 ->
         endpoint_run (conn w) t1 = Some (Some c))
  /\ (forall (t1 t2 : list Event) (c : Conn),
         tr = t1 ++ EvConnClose c :: t2 ->
         endpoint_run (conn w) t1 = Some (Some c)).
Proof.
  intros Hrun.
  assert (Hall : endpoint_run (conn w) tr = Some (conn w1)).
  { induction Hrun as [w|w w1 w2 tr1 tr2 Hstep Hrun IH]; [reflexivity|].
    rewrite endpoint_run_app, (Step_conforms _ _ _ Hstep). exact IH. }
  split; [exact Hall|].
  assert (Hcut : forall (t1 t2 : list Event) (e : Event),
             tr = t1 ++ e :: t2 ->
             exists live live',
               endpoint_run (conn w) t1 = Some live
               /\ endpoint_step live e = Some live').
  { intros t1 t2 e ->. rewrite endpoint_run_app in Hall.
    destruct (endpoint_run (conn w) t1) as [live|]; [|discriminate Hall].
    simpl in Hall. destruct (endpoint_step live e) as [live'|] eqn:He;
      [|discriminate Hall].
    exists live, live'. auto. }
  split; [|split; [|split]].
  - intros t1 t2 c Heq. destruct (Hcut _ _ _ Heq) as (live & live' & Hl & He).
    rewrite Hl. simpl in He. destruct live; [discriminate He|reflexivity].
  - intros t1 t2 c msg Heq. destruct (Hcut _ _ _ Heq) as (live & live' & Hl & He).
    rewrite Hl. f_equal. simpl in He.
    destruct live as [c'|]; [|discriminate He].
    destruct (Nat.eqb_spec c c'); [subst; reflexivity|discriminate He].
  - intros t1 t2 c Heq. destruct (Hcut _ _ _ Heq) as (live & live' & Hl & He).
    rewrite Hl. f_equal. simpl in He.
    destruct live as [c'|]; [|discriminate He].
    destruct (Nat.eqb_spec c c'); [subst; reflexivity|discriminate He].
  - intros t1 t2 c Heq. destruct (Hcut _ _ _ Heq) as (live & live' & Hl & He).
    rewrite Hl. f_equal. simpl in He.
    destruct live as [c'|]; [|discriminate He].
    destruct (Nat.eqb_spec c c'); [subst; reflexivity|discriminate He].
Qed.

(** ** The headers of every dial *)

Local Abbreviation leaves_hdr :=
  (@leaves Message Header _ (option Header) (@requestHeader Message Header)
           (@not_a_dial Message Header)).
Local Abbreviation keeps_requestHeader :=
  (keeps_requestHeader (Message:=Message) (Header:=Header)).

Lemma hdr_of_leaves {A : Type} (m : M A) : leaves_hdr m -> keeps_requestHeader m.
Proof.
  intros H w. destruct (H w) as [He Hf]. split; [exact He|].
  eapply Forall_impl; [|exact Hf].
  intros e Hn. destruct e; simpl in Hn |- *; auto. contradiction.
Qed.

Lemma hdr_teardown : leaves_hdr teardown.
Proof. open_methods. leaves_run. Qed.

Lemma hdr_closeConn (written closed : option error) :
  leaves_hdr (closeConn written closed).
Proof. open_methods. leaves_run. Qed.

Lemma hdr_sendReconnect : leaves_hdr sendReconnect.
Proof. open_methods. leaves_run. Qed.

#[local] Hint Resolve hdr_teardown hdr_closeConn hdr_sendReconnect : leaves_db.

Lemma hdr_connectionManager_select (taken : ManagerCase)
      (written closed : option error) :
  leaves_hdr (connectionManager_select taken written closed).
Proof. unfold connectionManager_select. destruct taken; leaves_run. Qed.

Lemma hdr_reader_handle (res : Message + error) : leaves_hdr (reader_handle res).
Proof. open_methods. leaves_run. Qed.

Lemma hdr_writer_select (taken : WriterCase) (written : option error) :
  leaves_hdr (writer_select zeroMessage taken written).
Proof. open_methods. destruct taken; leaves_run. Qed.

#[local] Hint Resolve hdr_connectionManager_select hdr_reader_handle
  hdr_writer_select : leaves_db.

Lemma hdr_Disconnect : leaves_hdr Disconnect.
Proof. open_methods. leaves_run. Qed.

Lemma hdr_Send (msg : Message) : leaves_hdr (Send msg).
Proof. open_methods. leaves_run. Qed.

Lemma hdr_writer_body (taken : WriterCase) (written : option error) :
  leaves_hdr (writer_body zeroMessage taken written).
Proof. unfold writer_body, connIsReady, sleep. leaves_run. Qed.

Lemma hdr_reader_body (read : Message + error) : leaves_hdr (reader_body read).
Proof. open_methods. leaves_run. Qed.

Lemma Step_keeps_requestHeader (w w1 : Websocket) (tr : list Event) :
  Step zeroMessage w tr w1 ->
  requestHeader w1 = requestHeader w /\ Forall (dials_with (requestHeader w)) tr.
Proof.
  intros H. destruct H.
  - apply (hdr_of_leaves _ hdr_Disconnect).
  - split; [reflexivity|constructor].
  - apply (hdr_of_leaves _ (hdr_Send msg)).
  - destruct (chan_recv tt (done w)) as [[v c]|] eqn:Hd.
    + rewrite (connectionManager_body_done _ _ _ _ _ w v c Hd).
      split; [reflexivity|constructor].
    + rewrite (connectionManager_body_not_done _ _ _ _ _ w Hd).
      destruct (negb (closing w) && negb (conn_not_nil w));
        [|apply (hdr_of_leaves _ (hdr_connectionManager_select taken written closed))].
      destruct dialed as [c|e].
      * rewrite state_of_prepend, trace_of_prepend.
        destruct (hdr_of_leaves _ (hdr_connectionManager_select taken written closed)
                    (with_reconnecting false (with_conn (Some c) w))) as [He Hf].
        split; [exact He|]. apply Forall_app. split; [|exact Hf].
        repeat constructor.
      * simpl. split; [reflexivity|]. repeat constructor.
  - apply (hdr_of_leaves _ (hdr_connectionManager_select taken written closed)).
  - apply (hdr_of_leaves _ (hdr_writer_body taken written)).
  - apply (hdr_of_leaves _ (hdr_writer_select taken written)).
  - apply (hdr_of_leaves _ (hdr_reader_body read)).
  - apply (hdr_of_leaves _ (hdr_reader_handle res)).
Qed.

(** Every dial of a session, the first and every redial, passes to the
    dialer the request headers that were given to [Connect]; nothing but
    [startup] writes them. *)
Theorem every_dial_passes_the_request_header
        (target : URL) (hdr : option Header) (w w0 w1 : Websocket)
        (tr0 tr : list Event) :
  started w = false ->
  Connect URL_String target hdr w = Ret None w0 tr0 ->
  Run zeroMessage w0 tr w1 ->
  requestHeader w1 = hdr
  /\ forall (urlStr : string) (h : option Header),
       In (EvDial urlStr h) tr -> h = hdr.
Proof.
  intros Hs Hc Hrun. rewrite (Connect_not_started _ target hdr w Hs) in Hc.
  injection Hc as <- _.
  assert (H : forall (wa wb : Websocket) (t : list Event),
             Run zeroMessage wa t wb ->
             requestHeader wb = requestHeader wa
             /\ Forall (dials_with (requestHeader wa)) t).
  { clear. induction 1 as [wa|wa wb wc t1 t2 Hstep Hrun [IHe IHd]].
    - split; [reflexivity|constructor].
    - apply Step_keeps_requestHeader in Hstep. destruct Hstep as [He Hd].
      split; [congruence|]. apply Forall_app. split; [exact Hd|].
      rewrite <- He. exact IHd. }
  destruct (H _ _ _ Hrun) as [He Hd]. cbn [requestHeader] in He, Hd.
  split; [exact He|]. intros urlStr h Hin. rewrite Forall_forall in Hd.
  exact (Hd _ Hin).
Qed.

(** ** The order of messages *)

Lemma Send_room (msg : Message) (w : Websocket) (cap : nat) (buf : list Message) :
  send w = ChOpen cap buf -> (List.length buf < cap)%nat ->
  Send msg w = Ret tt (with_send (ChOpen cap (buf ++ [msg])) w) [EvChanSend SendCh].
Proof.
  intros Hs Hl. unfold Send, send_on. rewrite Hs. simpl.
  replace (List.length buf <? cap)%nat with true
    by (symmetry; apply Nat.ltb_lt; exact Hl).
  rewrite orb_true_r. reflexivity.
Qed.

Lemma Send_full (msg : Message) (w : Websocket) (cap : nat) (buf : list Message) :
  send w = ChOpen cap buf -> cap <> 0%nat -> (cap <= List.length buf)%nat ->
  Send msg w = Blocks ChannelFull w [].
Proof.
  intros Hs Hc Hl. unfold Send, send_on. rewrite Hs. simpl.
  replace (List.length buf <? cap)%nat with false
    by (symmetry; apply Nat.ltb_ge; exact Hl).
  replace (cap =? 0)%nat with false by (symmetry; apply Nat.eqb_neq; exact Hc).
  reflexivity.
Qed.

Lemma Send_all_room (msgs : list Message) :
  forall (w : Websocket) (cap : nat) (buf : list Message),
    send w = ChOpen cap buf ->
    (List.length buf + List.length msgs <= cap)%nat ->
    Send_all msgs w
    = Ret tt (with_send (ChOpen cap (buf ++ msgs)) w)
          (repeat (EvChanSend SendCh) (List.length msgs)).
Proof.
  induction msgs as [|msg rest IH]; intros w cap buf Hs Hl.
  - simpl. rewrite app_nil_r, <- Hs. destruct w; reflexivity.
  - cbn [Send_all List.length repeat]. simpl in Hl.
    rewrite (bind_Ret _ _ _ _ _ _ (Send_room msg w cap buf Hs ltac:(lia))).
    rewrite (IH (with_send (ChOpen cap (buf ++ [msg])) w) cap (buf ++ [msg]))
      by (try reflexivity; rewrite length_app; simpl; lia).
    rewrite <- app_assoc. reflexivity.
Qed.

(** [Send] keeps the order and never drops: on the queue that [Connect]
    made, up to 100 messages sent with nobody reading are all queued, in the
    order of the calls, and with 100 queued any further [Send] waits, leaving
    the queue as it is. *)
Theorem Send_queues_in_order_up_to_capacity
        (target : URL) (hdr : option Header) (w w0 : Websocket)
        (tr0 : list Event) (msgs : list Message) :
  started w = false ->
  Connect URL_String target hdr w = Ret None w0 tr0 ->
  (List.length msgs <= messageQueueLength)%nat ->
  Send_all msgs w0
  = Ret tt (with_send (ChOpen messageQueueLength msgs) w0)
        (repeat (EvChanSend SendCh) (List.length msgs))
  /\ (List.length msgs = messageQueueLength ->
      forall msg : Message,
        Send msg (with_send (ChOpen messageQueueLength msgs) w0)
        = Blocks ChannelFull (with_send (ChOpen messageQueueLength msgs) w0) []).
Proof.
  intros Hs Hc Hl. rewrite (Connect_not_started _ target hdr w Hs) in Hc.
  injection Hc as <- _. split.
  - apply (Send_all_room msgs _ messageQueueLength []); [reflexivity|].
    simpl. exact Hl.
  - intros Hfull msg.
    apply (Send_full msg _ messageQueueLength msgs); [reflexivity|discriminate|].
    rewrite Hfull. apply le_n.
Qed.

Lemma writer_body_writes (w : Websocket) (c : Conn) (cap : nat)
      (msg : Message) (queue : list Message) :
  ready w = true -> conn w = Some c -> chan_recv tt (done w) = None ->
  send w = ChOpen cap (msg :: queue) ->
  writer_body zeroMessage WriterOnSend None w
  = Ret Continue (with_send (ChOpen cap queue) w) [EvWriteJSON c msg].
Proof.
  intros Hr Hc Hd Hs. rewrite (writer_body_not_done _ _ _ w Hd), Hr.
  unfold writer_select, recv_from. unfold bind at 1. rewrite Hs.
  cbn [chan_recv]. rewrite prepend_nil.
  rewrite (writer_send_ready msg None (with_send (ChOpen cap queue) w) c Hr Hc).
  reflexivity.
Qed.

Lemma writer_writes_in_order (msgs : list Message) :
  forall (w : Websocket) (c : Conn) (cap : nat) (queue : list Message),
    ready w = true -> conn w = Some c -> chan_recv tt (done w) = None ->
    send w = ChOpen cap (msgs ++ queue) ->
    writer zeroMessage (repeat (WriterOnSend, None) (List.length msgs)) w
    = Ret Continue (with_send (ChOpen cap queue) w) (map (EvWriteJSON c) msgs).
Proof.
  induction msgs as [|msg rest IH]; intros w c cap queue Hr Hc Hd Hs.
  - simpl in *. rewrite <- Hs. destruct w; reflexivity.
  - cbn [List.length repeat writer map].
    rewrite (bind_Ret _ _ _ _ _ _
               (writer_body_writes w c cap msg (rest ++ queue) Hr Hc Hd Hs)).
    rewrite (IH (with_send (ChOpen cap (rest ++ queue)) w) c cap queue Hr Hc Hd eq_refl).
    reflexivity.
Qed.


Lemma reader_body_delivers (w : Websocket) (c : Conn) (msg : Message) :
  ready w = true -> conn w = Some c -> chan_recv tt (done w) = None ->
  reader_body (inl msg) w = Ret Continue w [EvReadJSON c; EvOnConnMessage msg].
Proof.
  intros Hr Hc Hd. rewrite (reader_body_not_done _ w Hd), Hr, Hc. reflexivity.
Qed.

(** The reader hands the messages it reads to the handler one by one, in the
    order in which the endpoint delivered them and as it got them, and
    changes nothing in the session. *)
Theorem reader_delivers_in_order
        (w : Websocket) (c : Conn) (msgs : list Message) :
  ready w = true -> conn w = Some c -> chan_recv tt (done w) = None ->
  reader (map inl msgs) w
  = Ret Continue w
        (flat_map (fun msg => [EvReadJSON c; EvOnConnMessage msg]) msgs).
Proof.
  intros Hr Hc Hd. induction msgs as [|msg rest IH]; [reflexivity|].
  cbn [map reader flat_map].
  rewrite (bind_Ret _ _ _ _ _ _ (reader_body_delivers w c msg Hr Hc Hd)).
  rewrite IH. reflexivity.
Qed.

(** ** Closing twice *)

(** [closeConn] closes once.  Run again right after itself, whatever the
    endpoint answers, it only prints its name: the endpoint is not closed a
    second time and [OnConnClose] is not called again.  In all, [OnConnClose]
    is called once if the session held an endpoint and not at all if it held
    none, and no endpoint is held afterwards. *)
Theorem closeConn_closes_once
        (written closed written' closed' : option error) (w : Websocket) :
  bind (closeConn written closed) (fun _ => closeConn written' closed') w
  = bind (closeConn written closed) (fun _ => emit (EvPrintln "closeConn")) w
  /\ List.length (filter is_OnConnClose (trace_of (closeConn written closed w)))
     = (if conn_not_nil w then 1%nat else 0%nat)
  /\ conn (state_of (closeConn written closed w)) = None.
Proof.
  unfold conn_not_nil. destruct (conn w) as [c|] eqn:Hc.
  - pose proof (closeConn_run w c written closed Hc) as Hrun.
    split; [|split; [rewrite Hrun; destruct written, closed; reflexivity
                    |rewrite Hrun; reflexivity]].
    unfold bind. rewrite Hrun.
    rewrite (closeConn_no_conn written' closed'
               (with_closing false (with_conn None w)) eq_refl).
    reflexivity.
  - rewrite (closeConn_no_conn written closed w Hc).
    split; [|split; [reflexivity|exact Hc]].
    unfold bind. rewrite (closeConn_no_conn written closed w Hc).
    rewrite (closeConn_no_conn written' closed' w Hc). reflexivity.
Qed.

(** ** Scenarios *)

(** Recovery from a failed write.  When the writer's write of a message
    fails on a connected session, the handler gets the write error and one
    reconnect signal is raised; the connection manager takes it, closes the
    endpoint (one [OnConnClose]) without tearing the session down, and in its
    next round dials again; when that dial succeeds the handler gets
    [OnConnOpen] and the session is ready again on the new endpoint.  The
    message whose write failed is not queued again, and the attempt counter
    is where it was. *)
Theorem write_failure_recovers
        (w : Websocket) (c c' : Conn) (cap : nat) (msg : Message)
        (queue : list Message) (e : error) (written closed : option error)
        (delay : Duration) :
  ready w = true -> conn w = Some c -> chan_recv tt (done w) = None ->
  reconnect w = ChOpen 0 [] -> send w = ChOpen cap (msg :: queue) ->
  exists (w1 w2 w3 : Websocket) (tr2 : list Event),
    writer_body zeroMessage WriterOnSend (Some e) w
    = Ret Continue w1 [EvWriteJSON c msg; EvOnWriteError e;
                       EvSetFlag Reconnecting true; EvChanSend ReconnectCh;
                       EvSleep busyWait]
    /\ connectionManager_select OnReconnect written closed w1 = Ret Continue w2 tr2
    /\ filter is_callback tr2
       = match closed with
         | Some e' => [EvOnConnError e'; EvOnConnClose]
         | None => [EvOnConnClose]
         end
    /\ started w2 = true /\ conn w2 = None /\ ready w2 = false
    /\ connectionManager_body (inl c') delay OnDone None None w2
       = Blocks NotReady w3
                [EvDial (endPoint w) (requestHeader w); EvSetConn (Some c');
                 EvSetFlag Reconnecting false; EvOnConnOpen]
    /\ ready w3 = true /\ conn w3 = Some c'
    /\ send w3 = ChOpen cap queue
    /\ connectionTries w3 = connectionTries w.
Proof.
  intros Hr Hc Hd Hrc Hs.
  pose proof (proj1 (ready_true_iff w) Hr) as (Hst & Hcl & Hrg & _).
  destruct w as [cn ep hdr dn cl rc sd n st cg rg].
  cbn [conn done reconnect send started closing reconnecting] in *.
  subst cn rc sd st cg rg.
  do 3 eexists. eexists.
  split; [|split; [|split; [|split; [|split; [|split; [|split; [|split;
         [|split; [|split]]]]]]]]].
  - rewrite writer_body_not_done by exact Hd. reflexivity.
  - unfold connectionManager_select, recv_from. unfold bind at 1.
    cbn [reconnect with_reconnect with_reconnecting with_send chan_recv app].
    rewrite prepend_nil. unfold bind at 1.
    pose proof (fun (w0 : Websocket) H =>
                  closeConn_run w0 c written closed H) as Hcc.
    rewrite Hcc by reflexivity. reflexivity.
  - destruct written, closed; reflexivity.
  - reflexivity.
  - reflexivity.
  - reflexivity.
  - rewrite connectionManager_body_not_done by exact Hd.
    cbn [closing conn_not_nil conn with_closing with_conn negb andb].
    unfold connectionManager_select, recv_from. unfold bind at 1.
    cbn [done with_reconnecting with_conn with_closing with_reconnect with_send].
    rewrite Hd. reflexivity.
  - reflexivity.
  - reflexivity.
  - reflexivity.
  - reflexivity.
Qed.

(** A failing write and a failing read on the same connection raise one
    reconnect signal between them: the writer's failure raises it, and the
    reader's, coming after, reports its error to the handler and adds
    nothing to the reconnect channel. *)
Theorem two_failures_raise_one_signal
        (w : Websocket) (c : Conn) (msg : Message) (e1 e2 : error) :
  ready w = true -> conn w = Some c -> reconnect w = ChOpen 0 [] ->
  IsCloseError e2 [1000] = false ->
  exists w1 : Websocket,
    writer_send msg (Some e1) w
    = Ret Continue w1 [EvWriteJSON c msg; EvOnWriteError e1;
                       EvSetFlag Reconnecting true; EvChanSend ReconnectCh;
                       EvSleep busyWait]
    /\ reader_handle (inr e2) w1
       = Ret Continue w1 [EvOnReadError e2; EvSleep busyWait]
    /\ reconnect w1 = ChOpen 0 [true].
Proof.
  intros Hr Hc Hrc He2.
  pose proof (proj1 (ready_true_iff w) Hr) as (Hst & Hcl & Hrg & _).
  exists (with_reconnect (ChOpen 0 [true]) (with_reconnecting true w)).
  split; [|split; [|reflexivity]].
  - rewrite (writer_send_ready msg (Some e1) w c Hr Hc).
    rewrite (bind_Ret _ _ _ _ _ _ (sendReconnect_raise w [] Hrg Hcl Hrc)).
    reflexivity.
  - rewrite reader_handle_error, He2.
    rewrite (bind_Ret _ _ _ _ _ _
               (sendReconnect_noop
                  (with_reconnect (ChOpen 0 [true]) (with_reconnecting true w))
                  (or_introl eq_refl))).
    reflexivity.
Qed.


(** [IsConnected] over the life of a connection.  On a session started from
    a [Websocket] without an endpoint, [IsConnected] is false right after
    [Connect] and stays false through a dial that fails; it is true once a
    dial has succeeded; and it is false again once [closeConn] has run. *)
Theorem IsConnected_follows_the_connection
        (target : URL) (hdr : option Header) (w w0 : Websocket)
        (tr0 : list Event) (c : Conn) (e : error) (delay : Duration)
        (taken : ManagerCase) (written closed : option error) :
  started w = false -> conn w = None ->
  Connect URL_String target hdr w = Ret None w0 tr0 ->
  IsConnected w0 = Ret false w0 []
  /\ (exists w1 tr1,
         connectionManager_body (inr e) delay taken written closed w0
         = Ret Continue w1 tr1
         /\ IsConnected w1 = Ret false w1 [])
  /\ (exists w2 tr2,
         dial (inl c) w0 = Ret None w2 tr2
         /\ IsConnected w2 = Ret true w2 []
         /\ exists w3 tr3,
              closeConn written closed w2 = Ret tt w3 tr3
              /\ IsConnected w3 = Ret false w3 []).
Proof.
  intros Hs Hc Hrun. rewrite (Connect_not_started _ target hdr w Hs) in Hrun.
  injection Hrun as <- _. rewrite Hc.
  split; [reflexivity|split].
  - do 2 eexists.
    split; [rewrite connectionManager_body_not_done by reflexivity; reflexivity|].
    reflexivity.
  - do 2 eexists. split; [rewrite dial_run; reflexivity|].
    split; [reflexivity|]. do 2 eexists.
    pose proof (fun (w0 : Websocket) H =>
                  closeConn_run w0 c written closed H) as Hcc.
    split; [rewrite Hcc by reflexivity; reflexivity|].
    reflexivity.
Qed.

(** ** Polling and backing off *)

Lemma writer_body_polls (taken : WriterCase) (written : option error) (w : Websocket) :
  ready w = false -> chan_recv tt (done w) = None ->
  writer_body zeroMessage taken written w = Ret Continue w [EvSleep busyWait].
Proof.
  intros Hr Hd. rewrite (writer_body_not_done _ _ _ w Hd), Hr. reflexivity.
Qed.

Lemma reader_body_polls (read : Message + error) (w : Websocket) :
  ready w = false -> chan_recv tt (done w) = None ->
  reader_body read w = Ret Continue w [EvSleep busyWait].
Proof.
  intros Hr Hd. rewrite (reader_body_not_done _ w Hd), Hr. reflexivity.
Qed.

(** While the session is not ready (no endpoint yet, or closing, or
    reconnecting) the writer and the reader only poll.  However many rounds
    they make and whatever the collaborators would answer, each round sleeps
    one polling interval and nothing else happens: no message leaves the
    queue, nothing is written or read, the handler is not called, and the
    session is as it was. *)
Theorem loops_poll_while_not_ready
        (w : Websocket) (rounds : list (WriterCase * option error))
        (reads : list (Message + error)) :
  ready w = false -> chan_recv tt (done w) = None ->
  writer zeroMessage rounds w
  = Ret Continue w (repeat (EvSleep busyWait) (List.length rounds))
  /\ reader reads w
     = Ret Continue w (repeat (EvSleep busyWait) (List.length reads)).
Proof.
  intros Hr Hd. split.
  - induction rounds as [|[taken written] rest IH]; [reflexivity|].
    cbn [writer List.length repeat].
    rewrite (bind_Ret _ _ _ _ _ _ (writer_body_polls taken written w Hr Hd)).
    rewrite IH. reflexivity.
  - induction reads as [|read rest IH]; [reflexivity|].
    cbn [reader List.length repeat].
    rewrite (bind_Ret _ _ _ _ _ _ (reader_body_polls read w Hr Hd)).
    rewrite IH. reflexivity.
Qed.

Lemma wrap64_small (z : Z) : int64_range z -> wrap64 z = z.
Proof.
  unfold int64_range, wrap64. intros H. rewrite Z.mod_small by lia. lia.
Qed.

Lemma failed_round_run (outcome : error * Duration) (w : Websocket) :
  chan_recv tt (done w) = None -> closing w = false -> conn w = None ->
  connectionManager_body (round_dialed (failing_round outcome))
                         (round_delay (failing_round outcome))
                         (round_taken (failing_round outcome))
                         (round_written (failing_round outcome))
                         (round_closed (failing_round outcome)) w
  = Ret Continue
        (with_connectionTries (wrap64 (connectionTries w + 1))
                              (with_reconnecting true w))
        [EvDial (endPoint w) (requestHeader w); EvOnConnError (fst outcome);
         EvSetFlag Reconnecting true; EvReconnectAfter (connectionTries w);
         EvSleep (snd outcome)].
Proof.
  intros Hd Hcl Hc. cbn [failing_round round_dialed round_delay round_taken
                         round_written round_closed].
  rewrite (connectionManager_body_not_done _ _ _ _ _ w Hd).
  unfold conn_not_nil. rewrite Hcl, Hc. reflexivity.
Qed.

(** A row of failed dials.  As long as dials fail the connection manager
    goes round without ever waiting in its [select]: each round dials the
    stored URL, reports the error to the handler, sets the reconnecting
    flag, asks the handler for the delay with the number of failures so far
    (counting on from where the session stood) and sleeps just that delay.
    The counter ends up raised by the number of failures, no endpoint is
    held, and the session is not ready. *)
Theorem failed_dials_back_off
        (outcomes : list (error * Duration)) (w : Websocket) :
  chan_recv tt (done w) = None -> closing w = false -> conn w = None ->
  0 <= connectionTries w ->
  connectionTries w + Z.of_nat (List.length outcomes) < 2 ^ 63 ->
  exists w' : Websocket,
    connectionManager (map failing_round outcomes) w
    = Ret Continue w'
          (backoff_events (endPoint w) (requestHeader w) (connectionTries w) outcomes)
    /\ connectionTries w'
       = connectionTries w + Z.of_nat (List.length outcomes)
    /\ conn w' = None
    /\ (outcomes <> [] -> reconnecting w' = true /\ ready w' = false).
Proof.
  revert w. induction outcomes as [|o rest IH]; intros w Hd Hcl Hc Hn Hlt.
  - exists w. cbn [map connectionManager backoff_events List.length].
    split; [reflexivity|split; [simpl; lia|split; [exact Hc|congruence]]].
  - cbn [List.length] in Hlt. rewrite Nat2Z.inj_succ in Hlt.
    set (w1 := with_connectionTries (wrap64 (connectionTries w + 1))
                                    (with_reconnecting true w)).
    assert (Ht1 : connectionTries w1 = connectionTries w + 1).
    { apply wrap64_small. unfold int64_range. lia. }
    destruct (IH w1 Hd Hcl Hc ltac:(lia) ltac:(lia)) as (w' & Hrun & Ht & Hc' & Hrest).
    exists w'. cbn [map connectionManager].
    rewrite (bind_Ret _ _ _ _ _ _ (failed_round_run o w Hd Hcl Hc)).
    cbn beta iota. fold w1. rewrite Hrun. cbn [prepend]. destruct o as [e d].
    cbn [backoff_events fst snd]. rewrite Ht1.
    split; [reflexivity|].
    split; [rewrite Ht, Ht1; cbn [List.length]; lia|].
    split; [exact Hc'|]. intros _.
    destruct rest as [|o' rest'].
    + cbn [map connectionManager backoff_events] in Hrun.
      assert (Hw : w' = w1) by (unfold ret in Hrun; congruence).
      subst w'. split; [reflexivity|].
      unfold ready. cbn [reconnecting w1 with_connectionTries with_reconnecting negb].
      rewrite andb_false_r. reflexivity.
    + apply Hrest. discriminate.
Qed.

End Further.

(** ** The last segment of the dialled path *)

Lemma backtrack_index_rooted (out : list ascii) (w : nat) :
  (1 <= w)%nat -> (1 <= backtrack_index out 1 w)%nat.
Proof.
  induction w as [|w IH]; [lia|]. intros _. cbn [backtrack_index].
  destruct ((1 <? S w)%nat && negb (is_slash (nth (S w) out slash))) eqn:H; [|lia].
  apply IH. apply andb_true_iff in H. destruct H as [H _].
  apply Nat.ltb_lt in H. lia.
Qed.

Lemma clean_loop_rooted (n : nat) :
  forall (out rest : list ascii),
    (List.length rest <= n)%nat ->
    (exists o, out = slash :: o) ->
    exists o', clean_loop true 1 out rest = slash :: o'.
Proof.
  induction n as [|n IH]; intros out rest Hlen Hout.
  - destruct rest; [|simpl in Hlen; lia]. simp clean_loop.
  - destruct rest as [|c tl]; [simp clean_loop|].
    simpl in Hlen. rewrite clean_loop_cons.
    destruct (classify c tl).
    + apply IH; [lia|exact Hout].
    + apply IH; [lia|exact Hout].
    + assert (Htl : (List.length (List.tl tl) <= n)%nat)
        by (destruct tl; simpl in *; lia).
      destruct (1 <? List.length out)%nat eqn:Hlt; cbn [negb].
      * apply IH; [exact Htl|]. destruct Hout as [o ->].
        unfold backtrack. apply Nat.ltb_lt in Hlt.
        pose proof (backtrack_index_rooted (slash :: o)
                      (List.length (slash :: o) - 1) ltac:(lia)) as Hk.
        destruct (backtrack_index (slash :: o) 1 (List.length (slash :: o) - 1))
          as [|k]; [lia|]. simpl. eauto.
      * apply IH; [exact Htl|exact Hout].
    + apply IH; [pose proof (after_element_length tl); lia|].
      destruct Hout as [o ->]. unfold with_slash.
      destruct (needs_slash true (slash :: o)); simpl; eauto.
Qed.

(** Whatever path the caller's URL has (empty, rooted or not, with trailing
    slashes, dots or dot-dots), the path that [startup] stores for dialling
    has [websocket] as its last segment: it is [websocket] alone or ends
    with [/websocket]. *)
Theorem dialled_path_ends_with_websocket (p : string) :
  list_ascii_of_string (Join [p; "websocket"%string]) = websocket_bytes
  \/ exists prefix : list ascii,
       list_ascii_of_string (Join [p; "websocket"%string])
       = prefix ++ slash :: websocket_bytes.
Proof.
  rewrite Join_websocket_bytes.
  destruct (list_ascii_of_string p) as [|c tl]; [now left|].
  unfold with_slash, needs_slash.
  destruct (is_rooted (c :: tl)) eqn:Hr; cbn [andb orb negb].
  - right. unfold clean_out. rewrite Hr.
    destruct (clean_loop_rooted (List.length (List.tl (c :: tl))) [slash]
                                (List.tl (c :: tl)) (le_n _)
                                (ex_intro _ [] eq_refl)) as [o Ho].
    rewrite Ho. destruct o as [|x o]; cbn [List.length Nat.eqb negb].
    + exists []. reflexivity.
    + exists (slash :: x :: o). cbn [orb]. rewrite <- app_assoc. reflexivity.
  - destruct (clean_out (c :: tl)) as [|x o]; cbn [List.length Nat.eqb negb].
    + now left.
    + right. exists (x :: o). cbn [orb]. rewrite <- app_assoc. reflexivity.
Qed.

(** * The further properties on the sample session *)

Lemma sample_run_dial :
  Run EmptyString sample_started sample_dial_events sample_connected.
Proof.
  exact (Run_step EmptyString sample_started _ _ _ _
           (Step_manager EmptyString (inl 7%nat) 0 OnDone None None sample_started)
           (Run_refl EmptyString sample_connected)).
Qed.

Lemma sample_run_failed_dial :
  Run EmptyString sample_started sample_failed_dial_events sample_after_failed_dial.
Proof.
  exact (Run_step EmptyString sample_started _ _ _ _
           (Step_manager EmptyString (inr (transportError "connection refused"))
                         10000000 OnDone None None sample_started)
           (Run_refl EmptyString sample_after_failed_dial)).
Qed.

Lemma sample_Connect :
  Connect sample_URL_String sample_URL None (@NewWebsocket string unit)
  = Ret None sample_started
        [EvSetFlag Reconnecting false; EvSetFlag Closing false;
         EvGo ConnectionManager; EvGo WriterLoop; EvGo ReaderLoop;
         EvSetFlag Started true].
Proof. reflexivity. Qed.

Lemma teardown_only_once_witness :
  TornDown sample_torn_down
  /\ teardown sample_torn_down = Panics CloseOfClosedChannel sample_torn_down [].
Proof.
  split; [exact sample_torn_down_TornDown|].
  exact (proj1 (teardown_only_once sample_torn_down sample_torn_down_TornDown)).
Defined.

Lemma loops_end_after_teardown_witness :
  TornDown sample_torn_down
  /\ exists w', reader [inl "late"%string; inl "later"%string] sample_torn_down
                = Ret Return w' [].
Proof.
  split; [exact sample_torn_down_TornDown|].
  exact (proj2 (proj2 (loops_end_after_teardown EmptyString sample_torn_down
                         sample_torn_down_TornDown))
               (inl "late"%string) [inl "later"%string]).
Defined.

Lemma started_session_channels_open_witness :
  started (@NewWebsocket string unit) = false
  /\ started sample_connected = true
  /\ channels_open sample_connected = true.
Proof.
  split; [reflexivity|split; [reflexivity|]].
  exact (started_session_channels_open sample_URL_String EmptyString sample_URL None
           NewWebsocket sample_started sample_connected _ _
           eq_refl sample_Connect sample_run_dial eq_refl).
Defined.

Lemma endpoint_used_in_order_witness :
  endpoint_run (conn sample_started) sample_dial_events
  = Some (conn sample_connected).
Proof.
  exact (proj1 (endpoint_used_in_order EmptyString sample_started sample_connected
                  sample_dial_events sample_run_dial)).
Defined.

Lemma connectionTries_counts_failed_dials_witness :
  int64_range (connectionTries sample_started)
  /\ connectionTries sample_after_failed_dial
     = wrap64 (connectionTries sample_started
               + failed_dials sample_failed_dial_events).
Proof.
  assert (Hr : int64_range (connectionTries sample_started))
    by (unfold int64_range; simpl; lia).
  split; [exact Hr|].
  exact (connectionTries_counts_failed_dials EmptyString sample_started
           sample_after_failed_dial sample_failed_dial_events
           sample_run_failed_dial Hr).
Defined.

Lemma every_dial_passes_the_request_header_witness :
  started (@NewWebsocket string unit) = false
  /\ requestHeader sample_connected = None
  /\ forall (urlStr : string) (h : option unit),
       In (EvDial urlStr h) sample_dial_events -> h = None.
Proof.
  split; [reflexivity|].
  exact (every_dial_passes_the_request_header sample_URL_String EmptyString
           sample_URL None NewWebsocket sample_started sample_connected _ _
           eq_refl sample_Connect sample_run_dial).
Defined.

Lemma Send_queues_in_order_up_to_capacity_witness :
  started (@NewWebsocket string unit) = false
  /\ (List.length ["m1"%string; "m2"%string] <= messageQueueLength)%nat
  /\ Send_all ["m1"%string; "m2"%string] sample_started
     = Ret tt (with_send (ChOpen messageQueueLength ["m1"%string; "m2"%string])
                         sample_started)
           [EvChanSend SendCh; EvChanSend SendCh].
Proof.
  assert (Hl : (List.length ["m1"%string; "m2"%string] <= messageQueueLength)%nat)
    by (unfold messageQueueLength; simpl; lia).
  split; [reflexivity|split; [exact Hl|]].
  exact (proj1 (Send_queues_in_order_up_to_capacity sample_URL_String sample_URL None
                  NewWebsocket sample_started _ ["m1"%string; "m2"%string]
                  eq_refl sample_Connect Hl)).
Defined.


Lemma reader_delivers_in_order_witness :
  ready sample_connected = true
  /\ reader [inl "a"%string; inl "b"%string] sample_connected
     = Ret Continue sample_connected
           [EvReadJSON 7%nat; EvOnConnMessage "a"%string;
            EvReadJSON 7%nat; EvOnConnMessage "b"%string].
Proof.
  split; [reflexivity|].
  exact (reader_delivers_in_order sample_connected 7%nat ["a"%string; "b"%string]
           eq_refl eq_refl eq_refl).
Defined.

Lemma write_failure_recovers_witness :
  ready sample_queued = true
  /\ exists (w1 w2 w3 : @Websocket string unit) (tr2 : list Event),
       writer_body EmptyString WriterOnSend (Some (transportError "broken pipe"))
                   sample_queued
       = Ret Continue w1
             [EvWriteJSON 7%nat "m1"%string;
              EvOnWriteError (transportError "broken pipe");
              EvSetFlag Reconnecting true; EvChanSend ReconnectCh;
              EvSleep busyWait]
       /\ connectionManager_select OnReconnect None None w1 = Ret Continue w2 tr2
       /\ filter is_callback tr2 = [EvOnConnClose]
       /\ ready w3 = true /\ conn w3 = Some 8%nat
       /\ send w3 = ChOpen messageQueueLength ["m2"%string].
Proof.
  split; [reflexivity|].
  destruct (write_failure_recovers EmptyString sample_queued 7%nat 8%nat
              messageQueueLength "m1"%string ["m2"%string]
              (transportError "broken pipe") None None 0
              eq_refl eq_refl eq_refl eq_refl eq_refl)
    as (w1 & w2 & w3 & tr2 & H1 & H2 & H3 & _ & _ & _ & _ & H8 & H9 & H10 & _).
  exists w1, w2, w3, tr2. repeat (split; [assumption|]). assumption.
Defined.

Lemma two_failures_raise_one_signal_witness :
  ready sample_connected = true
  /\ IsCloseError (CloseError 1006 "abnormal closure") [1000] = false
  /\ exists w1 : @Websocket string unit,
       reader_handle (inr (CloseError 1006 "abnormal closure")) w1
       = Ret Continue w1 [EvOnReadError (CloseError 1006 "abnormal closure");
                          EvSleep busyWait]
       /\ reconnect w1 = ChOpen 0 [true].
Proof.
  split; [reflexivity|split; [reflexivity|]].
  destruct (two_failures_raise_one_signal sample_connected 7%nat "m"%string
              (transportError "broken pipe") (CloseError 1006 "abnormal closure")
              eq_refl eq_refl eq_refl eq_refl)
    as (w1 & _ & H2 & H3).
  exists w1. split; assumption.
Defined.


Lemma IsConnected_follows_the_connection_witness :
  started (@NewWebsocket string unit) = false
  /\ conn (@NewWebsocket string unit) = None
  /\ IsConnected sample_started = Ret false sample_started [].
Proof.
  split; [reflexivity|split; [reflexivity|]].
  exact (proj1 (IsConnected_follows_the_connection sample_URL_String sample_URL None
                  NewWebsocket sample_started _ 7%nat (transportError "refused") 0
                  OnDone None None eq_refl eq_refl sample_Connect)).
Defined.

Lemma loops_poll_while_not_ready_witness :
  ready sample_started = false
  /\ writer EmptyString [(WriterOnSend, None); (WriterOnSend, None)] sample_started
     = Ret Continue sample_started [EvSleep busyWait; EvSleep busyWait].
Proof.
  split; [reflexivity|].
  exact (proj1 (loops_poll_while_not_ready EmptyString sample_started
                  [(WriterOnSend, None); (WriterOnSend, None)] []
                  eq_refl eq_refl)).
Defined.

Lemma failed_dials_back_off_witness :
  0 <= connectionTries sample_started
  /\ exists w' : @Websocket string unit,
       connectionManager
         (map failing_round
              [(transportError "refused", defaultReconnectAfterFunc 0);
               (transportError "refused", defaultReconnectAfterFunc 1)])
         sample_started
       = Ret Continue w'
             (backoff_events "ws://localhost:4000/socket/websocket" None 0
                [(transportError "refused", 10 * Millisecond);
                 (transportError "refused", 50 * Millisecond)])
       /\ connectionTries w' = 2.
Proof.
  split; [simpl; lia|].
  destruct (failed_dials_back_off
              [(transportError "refused", defaultReconnectAfterFunc 0);
               (transportError "refused", defaultReconnectAfterFunc 1)]
              sample_started eq_refl eq_refl eq_refl
              ltac:(simpl; lia) ltac:(simpl; lia))
    as (w' & H1 & H2 & _).
  exists w'. split; [exact H1|exact H2].
Defined.
